(** * Ramzify: the download endpoint, its file cache and its delayed cleanup

    A shallow embedding of [src/api/main.py] (and of its twin
    [src/api/server.py]): the derivation of the cached file name from a
    request, the handlers [download_music] and [get_file], and the
    background task [cleanup_file], over an explicit state made of the
    download directory, the pending background tasks, the clock and the
    log of yt-dlp invocations; then the handlers that do not download,
    [search_music], [get_video_info] and [serve_webapp], and the reply of
    the bot to a text message, [handle_text] of [src/bot/main.py]. *)

From Stdlib Require Import ZArith List Ascii String.
From stdpp Require Import base decidable option list strings pretty gmap sets.

Local Open Scope Z_scope.

#[local] Set Warnings "-clear-no-such-hyp".

(** ** [hashlib.md5]

    The handlers name a cached file after
    [hashlib.md5(video_id.encode()).hexdigest()[:10]].  MD5 is written out
    after RFC 1321, on 32-bit words kept in [Z] with the wrap-around
    explicit.  A Python [str] is represented by the [string] of its UTF-8
    bytes, so that [str.encode()] is the list of the character codes. *)

Module MD5.

Definition word_mask : Z := 0xffffffff.

Definition wrap32 (x : Z) : Z := Z.land x word_mask.

Definition add32 (x y : Z) : Z := wrap32 (x + y).

Definition not32 (x : Z) : Z := Z.lxor x word_mask.

Definition rotl32 (x : Z) (n : Z) : Z :=
  Z.lor (wrap32 (Z.shiftl x n)) (Z.shiftr x (32 - n)).

(** The four auxiliary functions of the four rounds. *)
Definition FF (x y z : Z) : Z := Z.lor (Z.land x y) (Z.land (not32 x) z).
Definition GG (x y z : Z) : Z := Z.lor (Z.land x z) (Z.land y (not32 z)).
Definition HH (x y z : Z) : Z := Z.lxor (Z.lxor x y) z.
Definition II (x y z : Z) : Z := Z.lxor y (Z.lor x (not32 z)).

(** [sines !! i] is the integer part of [2^32 * abs (sin (i + 1))]. *)
Definition sines : list Z :=
  [ 0xd76aa478; 0xe8c7b756; 0x242070db; 0xc1bdceee;
    0xf57c0faf; 0x4787c62a; 0xa8304613; 0xfd469501;
    0x698098d8; 0x8b44f7af; 0xffff5bb1; 0x895cd7be;
    0x6b901122; 0xfd987193; 0xa679438e; 0x49b40821;
    0xf61e2562; 0xc040b340; 0x265e5a51; 0xe9b6c7aa;
    0xd62f105d; 0x02441453; 0xd8a1e681; 0xe7d3fbc8;
    0x21e1cde6; 0xc33707d6; 0xf4d50d87; 0x455a14ed;
    0xa9e3e905; 0xfcefa3f8; 0x676f02d9; 0x8d2a4c8a;
    0xfffa3942; 0x8771f681; 0x6d9d6122; 0xfde5380c;
    0xa4beea44; 0x4bdecfa9; 0xf6bb4b60; 0xbebfbc70;
    0x289b7ec6; 0xeaa127fa; 0xd4ef3085; 0x04881d05;
    0xd9d4d039; 0xe6db99e5; 0x1fa27cf8; 0xc4ac5665;
    0xf4292244; 0x432aff97; 0xab9423a7; 0xfc93a039;
    0x655b59c3; 0x8f0ccc92; 0xffeff47d; 0x85845dd1;
    0x6fa87e4f; 0xfe2ce6e0; 0xa3014314; 0x4e0811a1;
    0xf7537e82; 0xbd3af235; 0x2ad7d2bb; 0xeb86d391 ].

(** Rotation amounts, four per round, used cyclically. *)
Definition rotations : list Z :=
  [ 7; 12; 17; 22;  5; 9; 14; 20;  4; 11; 16; 23;  6; 10; 15; 21 ].

Definition rotation (i : nat) : Z :=
  nth (4 * (i / 16) + i mod 4)%nat rotations 0.

(** Which message word operation [i] reads. *)
Definition word_index (i : nat) : nat :=
  match (i / 16)%nat with
  | 0%nat => i
  | 1%nat => (5 * i + 1) mod 16
  | 2%nat => (3 * i + 5) mod 16
  | _ => (7 * i) mod 16
  end%nat.

Definition round_fun (i : nat) : Z -> Z -> Z -> Z :=
  match (i / 16)%nat with
  | 0%nat => FF
  | 1%nat => GG
  | 2%nat => HH
  | _ => II
  end.

(** The chaining value: the registers A, B, C, D. *)
Record regs := Regs { rA : Z; rB : Z; rC : Z; rD : Z }.

Definition init_regs : regs :=
  Regs 0x67452301 0xefcdab89 0x98badcfe 0x10325476.

(** One of the 64 operations on a 16-word block [m]. *)
Definition operation (m : list Z) (r : regs) (i : nat) : regs :=
  let f := round_fun i (rB r) (rC r) (rD r) in
  let t := add32 (add32 (add32 f (rA r)) (nth i sines 0))
                 (nth (word_index i) m 0) in
  Regs (rD r) (add32 (rB r) (rotl32 t (rotation i))) (rB r) (rC r).

Definition compress (r : regs) (m : list Z) : regs :=
  let r' := fold_left (operation m) (seq 0 64) r in
  Regs (add32 (rA r) (rA r')) (add32 (rB r) (rB r'))
       (add32 (rC r) (rC r')) (add32 (rD r) (rD r')).

(** Little-endian bytes of a word, and back. *)
Fixpoint le_bytes (n : nat) (x : Z) : list Z :=
  match n with
  | O => []
  | S n' => Z.land x 0xff :: le_bytes n' (Z.shiftr x 8)
  end.

Fixpoint le_word (bs : list Z) : Z :=
  match bs with
  | [] => 0
  | b :: bs' => b + 256 * le_word bs'
  end.

(** Padding: a one bit, zeros up to 56 modulo 64, the bit length on 64
    bits. *)
Definition padding (len : nat) : list Z :=
  let zeros := ((119 - len mod 64) mod 64)%nat in
  0x80 :: repeat 0 zeros ++ le_bytes 8 (8 * Z.of_nat len).

(** Cuts a list in pieces of [n] elements; [fuel] bounds the number of
    pieces. *)
Fixpoint chunks {A} (fuel n : nat) (l : list A) : list (list A) :=
  match fuel, l with
  | O, _ | _, [] => []
  | S fuel', _ => firstn n l :: chunks fuel' n (skipn n l)
  end.

Definition block_words (block : list Z) : list Z :=
  map le_word (chunks 16 4 block).

Definition digest_regs (msg : list Z) : regs :=
  let padded := msg ++ padding (length msg) in
  fold_left compress
    (map block_words (chunks (length padded) 64 padded)) init_regs.

(** [hashlib.md5(msg).digest()]: the sixteen bytes of the digest. *)
Definition digest (msg : list Z) : list Z :=
  let r := digest_regs msg in
  le_bytes 4 (rA r) ++ le_bytes 4 (rB r) ++ le_bytes 4 (rC r)
    ++ le_bytes 4 (rD r).

Definition hex_digit (x : Z) : ascii :=
  ascii_of_nat (Z.to_nat (if x <? 10 then 48 + x else 87 + x)).

Definition hex_byte (b : Z) : string :=
  String (hex_digit (Z.shiftr b 4)) (String (hex_digit (Z.land b 0xf)) "").

Fixpoint hex (bs : list Z) : string :=
  match bs with
  | [] => ""
  | b :: bs' => hex_byte b +:+ hex bs'
  end.

(** [s.encode()] on the UTF-8 bytes of [s]. *)
Fixpoint encode (s : string) : list Z :=
  match s with
  | EmptyString => []
  | String c s' => Z.of_nat (nat_of_ascii c) :: encode s'
  end.

(** [hashlib.md5(b).hexdigest()]. *)
Definition hexdigest (msg : list Z) : string := hex (digest msg).

End MD5.

(** ** The data of [src/api/main.py] *)

(** [DOWNLOAD_DIR = Path("downloads")]. *)
Definition DOWNLOAD_DIR : string := "downloads".

(** [str(dir / name)] as [pathlib] builds it on a POSIX system.  A path
    is a root and segments: the segments are what lies between the
    slashes, without the empty ones and without the segments ["."]; the
    root is ["/"] for a path that begins with a slash, and ["//"] for one
    that begins with exactly two.  A name with a root replaces the
    directory; the path without root and without segments is ["."]. *)
Definition slash : ascii := "/"%char.

(** [s.split('/')] *)
Fixpoint split_slash (s : string) : list string :=
  match s with
  | EmptyString => [EmptyString]
  | String c s' =>
      if Ascii.eqb c slash then EmptyString :: split_slash s'
      else match split_slash s' with
           | x :: xs => String c x :: xs
           | [] => [String c EmptyString]
           end
  end.

Definition segments (s : string) : list string :=
  filter (fun x => x <> EmptyString /\ x <> ".") (split_slash s).

Fixpoint leading_slashes (s : string) : nat :=
  match s with
  | EmptyString => O
  | String c s' => if Ascii.eqb c slash then S (leading_slashes s') else O
  end.

Definition path_root (s : string) : string :=
  match leading_slashes s with
  | O => ""
  | 2%nat => "//"
  | _ => "/"
  end.

Fixpoint join_segments (segs : list string) : string :=
  match segs with
  | [] => ""
  | [x] => x
  | x :: rest => x +:+ "/" +:+ join_segments rest
  end.

Definition path_join (dir name : string) : string :=
  let '(root, segs) :=
    if decide (path_root name = "")
    then (path_root dir, segments dir ++ segments name)
    else (path_root name, segments name) in
  match root, segs with
  | EmptyString, [] => "."
  | _, _ => root +:+ join_segments segs
  end.

(** [class DownloadRequest(BaseModel)]: two fields of type [str], checked
    for nothing else; [format] defaults to ["mp3"].  A [str] is given by
    the bytes of its UTF-8 encoding, so that the requests of this type
    are those whose id can be encoded; an id that cannot (one with a
    lone surrogate) is a case of [download_music_any] below. *)
Record DownloadRequest := { video_id : string; format : string }.

Definition default_format : string := "mp3".

(** The dictionary returned by [download_music]. *)
Record download_reply :=
  { status : string; filename : string; download_url : string }.

(** [HTTPException(status_code=..., detail=...)]. *)
Record HTTPException := { status_code : Z; detail : string }.

(** [FileResponse(path=..., media_type=..., filename=...)]; the field
    [attachment] is the argument [filename], the name under which the
    client saves the file. *)
Record FileResponse :=
  { path : string; media_type : string; attachment : string }.

(** The options handed to [yt_dlp.YoutubeDL]. *)
Record postprocessor :=
  { key : string; preferredcodec : string; preferredquality : string }.

Record ydl_opts :=
  { ydl_format : string;
    postprocessors : list postprocessor;
    outtmpl : string;
    quiet : bool;
    no_warnings : bool }.

(** What can go wrong in a download, in the words of the specification's
    failure taxonomy, and the exception yt-dlp raises for it: the handler
    only ever looks at [str(e)]. *)
Inductive ExecutionError :=
  | SourceUnavailable
  | UnsupportedFormat
  | TranscodeFailed
  | Timeout.

Record exn := { cause : ExecutionError; str : string }.

(** The state the handlers run in.  [files] is the set of paths that
    exist; [tasks] holds the background [cleanup_file] coroutines that are
    asleep, each with the time at which its [asyncio.sleep] ends; [world]
    is whatever yt-dlp depends on outside the process; [locked] is the
    set of the paths that the operating system refuses to unlink (a
    directory without write permission, a file that is held open where
    that forbids the removal).  Three components are observations that no
    handler reads: [ydl_calls] logs the invocations of yt-dlp, [sending]
    lists the paths of the [FileResponse]s that are being streamed to a
    client, [last_access] is the time at which each path was last created
    or read. *)
Record state (World : Type) :=
  { files : gset string;
    tasks : list (string * Z);
    clock : Z;
    world : World;
    locked : gset string;
    ydl_calls : list (ydl_opts * list string);
    sending : list string;
    last_access : gmap string Z }.

Arguments files {World} _.
Arguments tasks {World} _.
Arguments clock {World} _.
Arguments world {World} _.
Arguments locked {World} _.
Arguments ydl_calls {World} _.
Arguments sending {World} _.
Arguments last_access {World} _.

Definition with_files {W} (fs : gset string) (s : state W) : state W :=
  {| files := fs; tasks := tasks s; clock := clock s; world := world s;
     locked := locked s;
     ydl_calls := ydl_calls s; sending := sending s;
     last_access := last_access s |}.

Definition with_tasks {W} (ts : list (string * Z)) (s : state W) : state W :=
  {| files := files s; tasks := ts; clock := clock s; world := world s;
     locked := locked s;
     ydl_calls := ydl_calls s; sending := sending s;
     last_access := last_access s |}.

Definition with_clock {W} (t : Z) (s : state W) : state W :=
  {| files := files s; tasks := tasks s; clock := t; world := world s;
     locked := locked s;
     ydl_calls := ydl_calls s; sending := sending s;
     last_access := last_access s |}.

Definition with_sending {W} (l : list string) (s : state W) : state W :=
  {| files := files s; tasks := tasks s; clock := clock s; world := world s;
     locked := locked s;
     ydl_calls := ydl_calls s; sending := l;
     last_access := last_access s |}.

Definition with_last_access {W} (m : gmap string Z) (s : state W) : state W :=
  {| files := files s; tasks := tasks s; clock := clock s; world := world s;
     locked := locked s;
     ydl_calls := ydl_calls s; sending := sending s;
     last_access := m |}.

(** The state after a run of yt-dlp that was given [opts] and [urls] and
    left the world [w] and the files [fs]. *)
Definition after_ydl {W} (opts : ydl_opts) (urls : list string)
    (w : W) (fs : gset string) (s : state W) : state W :=
  {| files := fs; tasks := tasks s; clock := clock s; world := w;
     locked := locked s;
     ydl_calls := ydl_calls s ++ [(opts, urls)]; sending := sending s;
     last_access := last_access s |}.

(** ** Key derivation *)

(** [hashlib.md5(request.video_id.encode()).hexdigest()[:10]] *)
Definition file_hash (vid : string) : string :=
  substring 0 10 (MD5.hexdigest (MD5.encode vid)).

(** [f"{file_hash}.{request.format}"] *)
Definition output_filename (request : DownloadRequest) : string :=
  file_hash (video_id request) +:+ "." +:+ format request.

(** [DOWNLOAD_DIR / output_filename] *)
Definition output_path (request : DownloadRequest) : string :=
  path_join DOWNLOAD_DIR (output_filename request).

(** [f"https://www.youtube.com/watch?v={request.video_id}"] *)
Definition video_url (request : DownloadRequest) : string :=
  "https://www.youtube.com/watch?v=" +:+ video_id request.

Definition make_ydl_opts (request : DownloadRequest) : ydl_opts :=
  {| ydl_format := "bestaudio/best";
     postprocessors :=
       [ {| key := "FFmpegExtractAudio";
            preferredcodec := format request;
            preferredquality := "192" |} ];
     outtmpl := path_join DOWNLOAD_DIR (file_hash (video_id request));
     quiet := true;
     no_warnings := true |}.

(** The delay of the cleanup task, in seconds. *)
Definition cleanup_delay : Z := 3600.

(** ** The handlers *)

Section handlers.
Context {World : Type}.

(** [with yt_dlp.YoutubeDL(ydl_opts) as ydl: ydl.download(urls)], run in
    a world and a directory: it returns or raises, and leaves a world
    and a directory behind. *)
Variable ydl_download :
  ydl_opts -> list string -> World -> gset string ->
  option exn * World * gset string.

(** The route under which files are served: ["/download/file/"] in
    [main.py], ["/api/download/file/"] in [server.py]; the two files
    agree on everything else that is modelled here. *)
Variable file_route : string.

Definition ready (request : DownloadRequest) : download_reply :=
  {| status := "ready";
     filename := output_filename request;
     download_url := file_route +:+ output_filename request |}.

(** [background_tasks.add_task(cleanup_file, file_path, delay=delay)]:
    the coroutine starts when the response has been sent and goes to
    sleep at once, until [clock + delay]. *)
Definition add_cleanup_task (file_path : string) (delay : Z)
    (s : state World) : state World :=
  with_tasks (tasks s ++ [(file_path, clock s + delay)]) s.

(** [download_music]: the whole body is inside [try], and every
    exception becomes an [HTTPException] with status 500 and the text of
    the exception as detail.  The request is one whose id can be encoded
    and whose path the operating system looks up (see [download_music_any]
    and [get_file_with] for the other cases). *)
Definition download_music (request : DownloadRequest) (s : state World)
    : (download_reply + HTTPException) * state World :=
  if decide (output_path request ∈ files s) then
    (inl (ready request), s)
  else
    let opts := make_ydl_opts request in
    let urls := [video_url request] in
    match ydl_download opts urls (world s) (files s) with
    | (Some e, w, fs) =>
        (inr {| status_code := 500; detail := str e |},
         after_ydl opts urls w fs s)
    | (None, w, fs) =>
        (inl (ready request),
         add_cleanup_task (output_path request) cleanup_delay
           (after_ydl opts urls w fs s))
    end.

(** [get_file]: looks at the directory and changes nothing.
    [Path.exists()] answers or raises: before Python 3.12 it lets through
    the error of a look-up that the operating system refuses (a name
    longer than the file system allows, a directory that may not be
    searched).  The handler has no [try], and the server then answers
    500.  [refused] tells for which paths the look-up is refused. *)
Definition get_file_with (refused : string -> bool) (name : string)
    (s : state World) : FileResponse + HTTPException :=
  let file_path := path_join DOWNLOAD_DIR name in
  if refused file_path then
    inr {| status_code := 500; detail := "Internal Server Error" |}
  else if decide (file_path ∈ files s) then
    inl {| path := file_path; media_type := "audio/mpeg";
           attachment := name |}
  else
    inr {| status_code := 404; detail := "File not found" |}.

(** [get_file] where every look-up is answered. *)
Definition get_file (name : string) (s : state World)
    : FileResponse + HTTPException :=
  get_file_with (fun _ => false) name s.

(** [download_music] for an id that has no UTF-8 encoding: the URL is
    built, [request.video_id.encode()] raises [UnicodeEncodeError], and
    the handler answers 500 with the text of that error; yt-dlp is not
    run.  [Some vid] is an id with the encoding [vid], [None] one
    without, [encode_error] the text of its error. *)
Definition download_music_any (encode_error : string)
    (vid : option string) (fmt : string) (s : state World)
    : (download_reply + HTTPException) * state World :=
  match vid with
  | Some v => download_music {| video_id := v; format := fmt |} s
  | None => (inr {| status_code := 500; detail := encode_error |}, s)
  end.

(** [cleanup_file], from the end of its [asyncio.sleep] on.  The file is
    unlinked if it exists; when the operating system refuses, [unlink]
    (or the look-up before it) raises, [except Exception: pass] drops
    the error, and the file is still there. *)
Definition cleanup_file (file_path : string) (s : state World)
    : state World :=
  if decide (file_path ∈ files s) then
    if decide (file_path ∈ locked s) then s
    else with_files (files s ∖ {[file_path]}) s
  else s.

(** ** The server around the handlers *)

(** The clock reaches [t]: the coroutines whose sleep has ended run, in
    the order in which they went to sleep. *)
Definition is_due (t : Z) (task : string * Z) : bool :=
  bool_decide (task.2 <= t).

Definition cleanup_all (due : list (string * Z)) (s : state World)
    : state World :=
  fold_left (fun s' task => cleanup_file task.1 s') due s.

Definition wake (t : Z) (s : state World) : state World :=
  cleanup_all
    (filter (fun task => is_due t task = true) (tasks s))
    (with_clock t
       (with_tasks (filter (fun task => is_due t task = false) (tasks s))
          s)).

Fixpoint remove_first (p : string) (l : list string) : list string :=
  match l with
  | [] => []
  | q :: l' => if decide (p = q) then l' else q :: remove_first p l'
  end.

(** What happens to the server: a request to one of the two endpoints,
    the end of the streaming of a response, the passing of [dt] seconds.
    Neither handler contains an [await], so that on the event loop each
    call runs from its first line to its [return] without another
    request being looked at in between; [cleanup_file] suspends once, in
    its [asyncio.sleep]. *)
Inductive event :=
  | PostDownload (request : DownloadRequest)
  | GetFile (name : string)
  | Sent (file_path : string)
  | Elapse (dt : N).

Inductive response :=
  | Reply (r : download_reply)
  | File (f : FileResponse)
  | Error (e : HTTPException)
  | Done.

(** A path that was just written or read is stamped with the time. *)
Definition stamp (file_path : string) (s : state World) : state World :=
  with_last_access (<[file_path := clock s]> (last_access s)) s.

(** One event.  The handler does its part; around it, the path of a
    response that starts being streamed is added to [sending], and
    [last_access] is brought up to date for a file that was downloaded
    or served. *)
Definition step (ev : event) (s : state World)
    : response * state World :=
  match ev with
  | PostDownload request =>
      match download_music request s with
      | (inl r, s') =>
          (Reply r,
           if decide (output_path request ∈ files s) then s'
           else stamp (output_path request) s')
      | (inr e, s') => (Error e, s')
      end
  | GetFile name =>
      match get_file name s with
      | inl f => (File f, stamp (path f) (with_sending (path f :: sending s) s))
      | inr e => (Error e, s)
      end
  | Sent file_path =>
      (Done, with_sending (remove_first file_path (sending s)) s)
  | Elapse dt => (Done, wake (clock s + Z.of_N dt) s)
  end.

Fixpoint run (evs : list event) (s : state World)
    : list response * state World :=
  match evs with
  | [] => ([], s)
  | ev :: evs' =>
      let '(r, s') := step ev s in
      let '(rs, s'') := run evs' s' in
      (r :: rs, s'')
  end.

(** The number of clients to which [file_path] is being streamed. *)
Definition busy (s : state World) (file_path : string) : nat :=
  length (filter (fun q => q = file_path) (sending s)).

End handlers.

(** The two files. *)
Definition main_file_route : string := "/download/file/".
Definition server_file_route : string := "/api/download/file/".

(** ** A scripted yt-dlp

    A stand-in for the external tool, to run the handlers on concrete
    inputs: the world is the list of the outcomes of the coming
    invocations.  A successful one leaves the audio file that the
    [FFmpegExtractAudio] post-processor writes: the output template with
    the codec as extension. *)
Inductive outcome :=
  | Fails (e : exn)
  | Succeeds.

Definition codec (opts : ydl_opts) : string :=
  match postprocessors opts with
  | pp :: _ => preferredcodec pp
  | [] => ""
  end.

Definition unreachable : exn :=
  {| cause := SourceUnavailable; str := "network is unreachable" |}.

Definition scripted_ydl (opts : ydl_opts) (urls : list string)
    (w : list outcome) (fs : gset string)
    : option exn * list outcome * gset string :=
  match w with
  | Fails e :: w' => (Some e, w', fs)
  | Succeeds :: w' => (None, w', fs ∪ {[ outtmpl opts +:+ "." +:+ codec opts ]})
  | [] => (Some unreachable, [], fs)
  end.

(** The state of a server that was just started at time 0 in an empty
    directory. *)
Definition boot (w : list outcome) : state (list outcome) :=
  {| files := ∅; tasks := []; clock := 0; world := w; locked := ∅;
     ydl_calls := []; sending := []; last_access := ∅ |}.

(** Requests used in the examples below. *)
Definition abc_mp3 : DownloadRequest :=
  {| video_id := "abc"; format := "mp3" |}.

Definition empty_mp3 : DownloadRequest :=
  {| video_id := ""; format := "mp3" |}.

Definition abc_wav : DownloadRequest :=
  {| video_id := "abc"; format := "wav" |}.

Definition vid_a : DownloadRequest :=
  {| video_id := "vid2298526"; format := "mp3" |}.

Definition vid_b : DownloadRequest :=
  {| video_id := "vid2500121"; format := "mp3" |}.

(** The formats the specification's key deriver admits (section 4.1); the
    source has no such list. *)
Definition spec_allow_list : list string := ["mp3"; "m4a"].

(** Runs in which no download is requested: files are fetched, streams
    end and time passes. *)
Definition no_download (evs : list event) : Prop :=
  Forall (fun ev => match ev with PostDownload _ => False | _ => True end)
    evs.

(** As long as the file [p] exists, a task that will remove it at the
    latest at [T] is asleep. *)
Definition doomed {World} (p : string) (T : Z) (s : state World) : Prop :=
  p ∈ files s -> exists d, (p, d) ∈ tasks s /\ d <= T /\ clock s < d.

(** The file [p] exists and no task will remove it before [T]. *)
Definition safe_until {World} (p : string) (T : Z) (s : state World) : Prop :=
  p ∈ files s /\ forall d, (p, d) ∈ tasks s -> T <= d.

(** Runs in which every download that is requested is one for the file
    [p]. *)
Definition only_requests_for (p : string) (evs : list event) : Prop :=
  Forall (fun ev => match ev with
                    | PostDownload request => output_path request = p
                    | _ => True
                    end) evs.

(** The characters of [hexdigest()]. *)
Definition is_hex_digit (c : ascii) : bool :=
  existsb (Ascii.eqb c) (list_ascii_of_string "0123456789abcdef").

(** A yt-dlp that succeeds and leaves an Ogg file, as the audio extraction
    does for the codec ["vorbis"]: the file is not the one the handler
    will look for. *)
Definition ogg_ydl (opts : ydl_opts) (urls : list string)
    (w : unit) (fs : gset string) : option exn * unit * gset string :=
  (None, w, fs ∪ {[ outtmpl opts +:+ ".ogg" ]}).

Definition abc_vorbis : DownloadRequest :=
  {| video_id := "abc"; format := "vorbis" |}.

Definition boot_unit : state unit :=
  {| files := ∅; tasks := []; clock := 0; world := tt; locked := ∅;
     ydl_calls := []; sending := []; last_access := ∅ |}.

Definition all_hex (s : string) : Prop :=
  Forall (fun c => is_hex_digit c = true) (list_ascii_of_string s).

(** ** Searching and looking up a video: [search_music], [get_video_info] *)

(** What yt-dlp puts in its dictionaries, as far as the handlers can tell
    the values apart: [None], a string, an integer, and anything else (a
    float, a list, a dictionary). *)
Inductive value :=
  | VNone
  | VStr (s : string)
  | VInt (z : Z)
  | VOther (tag : nat).

#[global] Instance value_eq_dec : EqDecision value.
Proof. solve_decision. Defined.

(** [d.get(k, dflt)]: the default is for a key that is absent, not for a
    key that is bound to [None]; [d.get(k)] is [d.get(k, None)]. *)
Definition dict_get (d : gmap string value) (k : string) (dflt : value)
    : value :=
  default dflt (d !! k).

(** The dictionary returned by [extract_info]: its key ['entries'], when
    present, is bound to a sequence of entries, each a dictionary or
    [None]; [fields] are the other keys. *)
Record info_dict :=
  { fields : gmap string value;
    entries : option (list (option (gmap string value))) }.

(** The options of the two handlers that do not download. *)
Record extract_opts :=
  { x_quiet : bool;
    x_no_warnings : bool;
    extract_flat : bool;
    default_search : option string }.

(** [class SearchRequest(BaseModel)]; [max_results] defaults to 10. *)
Record SearchRequest := { query : string; max_results : Z }.

Definition default_max_results : Z := 10.

(** [class VideoInfo(BaseModel)]; [id_] is the field [id]. *)
Record VideoInfo :=
  { id_ : string;
    title : string;
    duration : Z;
    thumbnail : string;
    channel : string;
    views : option Z }.

(** What the handlers rely on without defining it: how pydantic reads a
    value into a field declared [str] or [int], the text of its
    [ValidationError] for the fields it rejected, and the text of the
    [TypeError] raised when a value that is neither [None], a string nor
    an integer is sliced and added to a string. *)
Record runtime :=
  { str_field : value -> option string;
    int_field : value -> option Z;
    validation_error : list (string * value) -> string;
    other_type_error : nat -> string }.

(** A field declared [Optional[int]]. *)
Definition optional_int_field (rt : runtime) (v : value) : option (option Z) :=
  match v with
  | VNone => Some None
  | _ => Some <$> int_field rt v
  end.

Definition rejected {A} (name : string) (v : value) (read : option A)
    : list (string * value) :=
  match read with
  | Some _ => []
  | None => [(name, v)]
  end.

(** [VideoInfo(id=..., title=..., duration=..., thumbnail=...,
    channel=..., views=...)]: the object, or the text of the
    [ValidationError]. *)
Definition new_VideoInfo (rt : runtime) (i t d th c v : value)
    : VideoInfo + string :=
  match str_field rt i, str_field rt t, int_field rt d,
        str_field rt th, str_field rt c, optional_int_field rt v with
  | Some i', Some t', Some d', Some th', Some c', Some v' =>
      inl {| id_ := i'; title := t'; duration := d'; thumbnail := th';
             channel := c'; views := v' |}
  | ri, rti, rd, rth, rc, rv =>
      inr (validation_error rt
             (rejected "id" i ri ++ rejected "title" t rti
              ++ rejected "duration" d rd ++ rejected "thumbnail" th rth
              ++ rejected "channel" c rc ++ rejected "views" v rv))
  end.

(** The [VideoInfo] of one entry of a search. *)
Definition video_of_entry (rt : runtime) (entry : gmap string value)
    : VideoInfo + string :=
  new_VideoInfo rt
    (dict_get entry "id" (VStr ""))
    (dict_get entry "title" (VStr "Unknown"))
    (dict_get entry "duration" (VInt 0))
    (dict_get entry "thumbnail" (VStr ""))
    (dict_get entry "channel" (VStr "Unknown"))
    (dict_get entry "view_count" VNone).

(** [if entry:]: [None] and the empty dictionary are skipped. *)
Definition truthy (entry : option (gmap string value)) : bool :=
  match entry with
  | None => false
  | Some d => negb (bool_decide (d = ∅))
  end.

(** The loop over [result['entries']]; the first entry that pydantic
    rejects ends it with an exception. *)
Fixpoint collect_videos (rt : runtime)
    (es : list (option (gmap string value))) : list VideoInfo + string :=
  match es with
  | [] => inl []
  | e :: es' =>
      match e with
      | Some entry =>
          if truthy e then
            match video_of_entry rt entry with
            | inr err => inr err
            | inl video =>
                match collect_videos rt es' with
                | inl videos => inl (video :: videos)
                | inr err => inr err
                end
            end
          else collect_videos rt es'
      | None => collect_videos rt es'
      end
  end.

(** [not result]: [None], or a dictionary without any key. *)
Definition falsy (result : option info_dict) : bool :=
  match result with
  | None => true
  | Some r =>
      match entries r with
      | None => bool_decide (fields r = ∅)
      | Some _ => false
      end
  end.

(** [f"ytsearch{request.max_results}:{request.query}"] *)
Definition search_query (request : SearchRequest) : string :=
  "ytsearch" +:+ pretty (max_results request) +:+ ":" +:+ query request.

Definition search_opts : extract_opts :=
  {| x_quiet := true; x_no_warnings := true; extract_flat := true;
     default_search := Some "ytsearch" |}.

Definition info_opts : extract_opts :=
  {| x_quiet := true; x_no_warnings := true; extract_flat := false;
     default_search := None |}.

(** [f"https://www.youtube.com/watch?v={video_id}"] *)
Definition watch_url (vid : string) : string :=
  "https://www.youtube.com/watch?v=" +:+ vid.

(** Python counts and slices a [str] by characters; on the UTF-8 bytes a
    character is a byte that is not a continuation byte ([10xxxxxx]),
    together with the continuation bytes that follow it. *)
Definition is_continuation (c : ascii) : bool :=
  (N.land (N_of_ascii c) 0xC0 =? 0x80)%N.

(** [len(s)] *)
Fixpoint py_len (s : string) : nat :=
  match s with
  | EmptyString => O
  | String c s' => if is_continuation c then py_len s' else S (py_len s')
  end.

(** [s[:n]] *)
Fixpoint slice_to (n : nat) (s : string) : string :=
  match s with
  | EmptyString => EmptyString
  | String c s' =>
      if is_continuation c then String c (slice_to n s')
      else match n with
           | O => EmptyString
           | S n' => String c (slice_to n' s')
           end
  end.

(** [value[:200] + '...']: the text, or the text of the [TypeError]. *)
Definition short_description (rt : runtime) (v : value) : string + string :=
  match v with
  | VStr d => inl (slice_to 200 d +:+ "...")
  | VNone => inr "'NoneType' object is not subscriptable"
  | VInt _ => inr "'int' object is not subscriptable"
  | VOther tag => inr (other_type_error rt tag)
  end.

Section lookups.
Context {World : Type}.

(** [with yt_dlp.YoutubeDL(opts) as ydl: ydl.extract_info(url,
    download=False)]: a dictionary or [None], or an exception. *)
Variable extract_info :
  extract_opts -> string -> World -> (option info_dict + exn) * World.

Variable rt : runtime.

Definition internal_error (text : string) : HTTPException :=
  {| status_code := 500; detail := text |}.

(** [search_music] *)
Definition search_music (request : SearchRequest) (w : World)
    : (list VideoInfo + HTTPException) * World :=
  match extract_info search_opts (search_query request) w with
  | (inr e, w') => (inr (internal_error (str e)), w')
  | (inl result, w') =>
      if falsy result then (inl [], w')
      else
        match result with
        | None => (inl [], w')
        | Some r =>
            match entries r with
            | None => (inl [], w')
            | Some es =>
                match collect_videos rt es with
                | inl videos => (inl videos, w')
                | inr err => (inr (internal_error err), w')
                end
            end
        end
  end.

(** [get_video_info]: the reply is a dictionary. *)
Definition get_video_info (vid : string) (w : World)
    : (gmap string value + HTTPException) * World :=
  match extract_info info_opts (watch_url vid) w with
  | (inr e, w') => (inr (internal_error (str e)), w')
  | (inl None, w') =>
      (inr (internal_error "'NoneType' object has no attribute 'get'"), w')
  | (inl (Some r), w') =>
      let info := fields r in
      match short_description rt (dict_get info "description" (VStr "")) with
      | inr err => (inr (internal_error err), w')
      | inl text =>
          (inl (list_to_map
                  [ ("id", dict_get info "id" VNone);
                    ("title", dict_get info "title" VNone);
                    ("duration", dict_get info "duration" VNone);
                    ("thumbnail", dict_get info "thumbnail" VNone);
                    ("channel", dict_get info "channel" VNone);
                    ("views", dict_get info "view_count" VNone);
                    ("description", VStr text);
                    ("upload_date", dict_get info "upload_date" VNone) ]),
           w')
      end
  end.

End lookups.

(** A pydantic that takes a string for [str] and an integer for [int], and
    nothing else. *)
Definition strict : runtime :=
  {| str_field := fun v => match v with VStr s => Some s | _ => None end;
     int_field := fun v => match v with VInt z => Some z | _ => None end;
     validation_error := fun _ => "validation error";
     other_type_error := fun _ => "unsupported operand" |}.

(** A scripted [extract_info]: the world is what it will return. *)
Definition scripted_extract (opts : extract_opts) (url : string)
    (w : option info_dict + exn)
    : (option info_dict + exn) * (option info_dict + exn) :=
  (w, w).

(** The entries the loop of [search_music] does not skip. *)
Definition truthy_entries (es : list (option (gmap string value)))
    : list (gmap string value) :=
  omap (fun e => if truthy e then e else None) es.

(** Dictionaries for the examples. *)
Definition entry_a : gmap string value :=
  {[ "id" := VStr "a"; "title" := VStr "Song"; "duration" := VInt 215 ]}.

Definition entry_url_only : gmap string value :=
  {[ "url" := VStr "https://youtu.be/b" ]}.

Definition entry_live : gmap string value :=
  {[ "id" := VStr "c"; "duration" := VNone ]}.

Definition found (es : list (option (gmap string value)))
    : option info_dict + exn :=
  inl (Some {| fields := {[ "title" := VStr "results" ]};
               entries := Some es |}).

Definition ten_songs : SearchRequest :=
  {| query := "songs"; max_results := default_max_results |}.

Definition info_without_description : option info_dict + exn :=
  inl (Some {| fields := {[ "id" := VStr "abc"; "view_count" := VInt 7 ]};
               entries := None |}).

Definition info_with_none_description : option info_dict + exn :=
  inl (Some {| fields := {[ "id" := VStr "abc"; "description" := VNone ]};
               entries := None |}).

(** ** The web page: [serve_webapp] of [server.py] *)

(** [s[n:]] on a string of ASCII characters. *)
Fixpoint string_drop (n : nat) (s : string) : string :=
  match n, s with
  | O, _ => s
  | S n', String _ s' => string_drop n' s'
  | S _, EmptyString => EmptyString
  end.

(** [s.replace(old, new)] for a non-empty [old]: the occurrences of [old]
    are replaced from the left, and the search goes on after each of
    them.  [skip] is the number of characters of an occurrence that was
    just replaced and that are still to be passed over.  Since [old] is
    ASCII here, replacing in the UTF-8 bytes is replacing in the
    characters. *)
Fixpoint replace_from (skip : nat) (old new s : string) : string :=
  match s with
  | EmptyString => EmptyString
  | String c s' =>
      match skip with
      | S k => replace_from k old new s'
      | O =>
          if String.prefix old s then
            new +:+ replace_from (String.length old - 1) old new s'
          else String c (replace_from 0 old new s')
      end
  end.

Definition str_replace (old new s : string) : string :=
  replace_from 0 old new s.

(** [HTMLResponse(content=..., status_code=...)]; the status is 200 when
    it is not given. *)
Record HTMLResponse := { content : string; html_status : Z }.

Definition localhost_line : string :=
  "const API_URL = 'http://localhost:8000';".

Definition origin_line : string :=
  "const API_URL = window.location.origin;".

(** [serve_webapp] from the text that [f.read()] returned: [index_html]
    is that text when [WEBAPP_DIR / "index.html"] exists; the reading
    itself is in [serve_index] below. *)
Definition serve_webapp (index_html : option string) : HTMLResponse :=
  match index_html with
  | Some page =>
      {| content := str_replace localhost_line origin_line page;
         html_status := 200 |}
  | None =>
      {| content := "<h1>Web App not found</h1>"; html_status := 404 |}
  end.

(** The well-formed UTF-8 byte sequences, which are what the decoder of
    Python accepts: one byte below [80]; [C2..DF] and a continuation
    byte; [E0..EF] and two, without the overlong forms and the
    surrogates; [F0..F4] and three, up to [10FFFF]. *)
Definition byte_in (lo hi : N) (c : ascii) : bool :=
  ((lo <=? N_of_ascii c) && (N_of_ascii c <=? hi))%N.

Definition second_of_three (a b : ascii) : bool :=
  (byte_in 0xE0 0xE0 a && byte_in 0xA0 0xBF b)
  || (byte_in 0xE1 0xEC a && byte_in 0x80 0xBF b)
  || (byte_in 0xED 0xED a && byte_in 0x80 0x9F b)
  || (byte_in 0xEE 0xEF a && byte_in 0x80 0xBF b).

Definition second_of_four (a b : ascii) : bool :=
  (byte_in 0xF0 0xF0 a && byte_in 0x90 0xBF b)
  || (byte_in 0xF1 0xF3 a && byte_in 0x80 0xBF b)
  || (byte_in 0xF4 0xF4 a && byte_in 0x80 0x8F b).

Fixpoint utf8_valid (s : string) : bool :=
  match s with
  | EmptyString => true
  | String a s1 =>
      if byte_in 0x00 0x7F a then utf8_valid s1
      else
        match s1 with
        | EmptyString => false
        | String b s2 =>
            if byte_in 0xC2 0xDF a then byte_in 0x80 0xBF b && utf8_valid s2
            else
              match s2 with
              | EmptyString => false
              | String c s3 =>
                  if byte_in 0xE0 0xEF a then
                    second_of_three a b && byte_in 0x80 0xBF c
                    && utf8_valid s3
                  else
                    match s3 with
                    | EmptyString => false
                    | String d s4 =>
                        second_of_four a b && byte_in 0x80 0xBF c
                        && byte_in 0x80 0xBF d && utf8_valid s4
                    end
              end
        end
  end.

Definition CR : ascii := ascii_of_nat 13.
Definition LF : ascii := ascii_of_nat 10.

(** The newlines of a file read in text mode: a carriage return, with the
    line feed that follows it if there is one, becomes a line feed. *)
Fixpoint universal_newlines (s : string) : string :=
  match s with
  | EmptyString => EmptyString
  | String c s' =>
      if Ascii.eqb c CR then
        match s' with
        | String d s'' =>
            if Ascii.eqb d LF then String LF (universal_newlines s'')
            else String LF (universal_newlines s')
        | EmptyString => String LF EmptyString
        end
      else String c (universal_newlines s')
  end.

(** [open(webapp_file, 'r', encoding='utf-8').read()] on the bytes of the
    file: the text, or [None] when the bytes are not UTF-8 and the
    reading raises [UnicodeDecodeError]. *)
Definition read_text (bytes : string) : option string :=
  if utf8_valid bytes then Some (universal_newlines bytes) else None.

(** The whole of [serve_webapp]; [index_html] is the content of
    [WEBAPP_DIR / "index.html"] when the file exists.  The handler has no
    [try]: when the reading raises, the server answers 500. *)
Definition serve_index (index_html : option string) : HTMLResponse :=
  match index_html with
  | None => serve_webapp None
  | Some bytes =>
      match read_text bytes with
      | Some page => serve_webapp (Some page)
      | None =>
          {| content := "Internal Server Error"; html_status := 500 |}
      end
  end.

(** [old] is found in [s] at the index [i]. *)
Definition occurs_at (old s : string) (i : nat) : Prop :=
  String.prefix old (string_drop i s) = true.

(** One of two strings begins with the other. *)
Definition compatible (a b : string) : bool :=
  String.prefix a b || String.prefix b a.

(** No end of [old] can run into a copy of [new], and no end of [new] into
    a copy of [old]. *)
Definition no_overlap (old new : string) : bool :=
  forallb (fun k => negb (compatible (string_drop k old) new))
    (seq 1 (String.length old - 1))
  && forallb (fun i => negb (compatible (string_drop i new) old))
       (seq 0 (String.length new)).


(** ** The bot: [handle_text] of [src/bot/main.py] *)

(** What [handle_text] answers with: the text of the message, its parse
    mode, and the one button of the keyboard with its web-app URL. *)
Record text_answer :=
  { answer_text : string;
    answer_parse_mode : string;
    button_text : string;
    button_url : string }.

Definition newline : string := String (ascii_of_nat 10) "".

(** [handle_text]; [webapp_url] is [WEBAPP_URL], read from the environment
    when the module is loaded, and [query] is [message.text]. *)
Definition handle_text (webapp_url query : string) : text_answer :=
  {| answer_text :=
       "🔍 Ищем: <b>" +:+ query +:+ "</b>" +:+ newline +:+ newline
       +:+ "Нажми на кнопку ниже, чтобы увидеть результаты:";
     answer_parse_mode := "HTML";
     button_text := "🔍 Искать '" +:+ slice_to 30 query +:+ "...'";
     button_url := webapp_url +:+ "?q=" +:+ query |}.

(** Closed facts about concrete runs are settled by evaluation. *)
Ltac by_evaluation :=
  repeat match goal with
         | |- _ /\ _ => split
         end;
  try (vm_compute; reflexivity);
  try (apply (bool_decide_unpack _); vm_compute; exact I).

(** * Properties *)

(** ** MD5 against the test suite of RFC 1321 *)

Example md5_empty :
  MD5.hexdigest (MD5.encode "") = "d41d8cd98f00b204e9800998ecf8427e".
Proof. vm_compute. reflexivity. Qed.

Example md5_abc :
  MD5.hexdigest (MD5.encode "abc") = "900150983cd24fb0d6963f7d28e17f72".
Proof. vm_compute. reflexivity. Qed.

Example md5_message_digest :
  MD5.hexdigest (MD5.encode "message digest")
  = "f96b697d7cb7938d525a2f31aaf161d0".
Proof. vm_compute. reflexivity. Qed.

Example md5_two_blocks :
  MD5.hexdigest (MD5.encode
    "12345678901234567890123456789012345678901234567890123456789012345678901234567890")
  = "57edf4a22be3c955ac49da2e2107b67a".
Proof. vm_compute. reflexivity. Qed.

(** ** Strings *)

Lemma string_length_app (a b : string) :
  String.length (a +:+ b) = (String.length a + String.length b)%nat.
Proof. induction a as [|c a IH]; simpl; [reflexivity | now rewrite IH]. Qed.

Lemma substring_prefix_length (n : nat) (s : string) :
  (n <= String.length s)%nat -> String.length (substring 0 n s) = n.
Proof.
  revert s. induction n as [|n IH]; intros s Hn.
  - destruct s; reflexivity.
  - destruct s as [|c s]; simpl in *; [lia |].
    rewrite IH; [reflexivity | lia].
Qed.

(** Two concatenations with left parts of the same length agree part by
    part. *)
Lemma string_app_inj_length (a b x y : string) :
  String.length a = String.length b ->
  a +:+ x = b +:+ y -> a = b /\ x = y.
Proof.
  revert b. induction a as [|c a IH]; intros [|d b] Hlen Heq;
    simpl in *; try discriminate.
  - split; [reflexivity | assumption].
  - injection Heq as -> Heq. injection Hlen as Hlen.
    destruct (IH b Hlen Heq) as [-> ->]. split; reflexivity.
Qed.

(** ** The length of the hash *)

Lemma le_bytes_length (n : nat) (x : Z) : length (MD5.le_bytes n x) = n.
Proof.
  revert x. induction n as [|n IH]; intros x; simpl;
    [reflexivity | now rewrite IH].
Qed.

Lemma digest_length (msg : list Z) : length (MD5.digest msg) = 16%nat.
Proof.
  unfold MD5.digest. rewrite !length_app, !le_bytes_length. reflexivity.
Qed.

Lemma hex_length (bs : list Z) :
  String.length (MD5.hex bs) = (2 * length bs)%nat.
Proof.
  induction bs as [|b bs IH]; [reflexivity |].
  change (MD5.hex (b :: bs)) with (MD5.hex_byte b +:+ MD5.hex bs).
  rewrite string_length_app, IH. simpl. lia.
Qed.

Lemma hexdigest_length (msg : list Z) :
  String.length (MD5.hexdigest msg) = 32%nat.
Proof. unfold MD5.hexdigest. rewrite hex_length, digest_length. reflexivity. Qed.

Lemma file_hash_length (vid : string) : String.length (file_hash vid) = 10%nat.
Proof.
  unfold file_hash. apply substring_prefix_length.
  rewrite hexdigest_length. lia.
Qed.

(** ** Key derivation *)

Lemma output_filename_eq (r1 r2 : DownloadRequest) :
  output_filename r1 = output_filename r2 <->
  file_hash (video_id r1) = file_hash (video_id r2) /\ format r1 = format r2.
Proof.
  unfold output_filename. split.
  - intros Heq.
    apply string_app_inj_length in Heq as [Hh Hf];
      [| now rewrite !file_hash_length].
    split; [assumption |]. now injection Hf.
  - intros [-> ->]. reflexivity.
Qed.

(** C7, as stated, fails: the requests for ["vid2298526"] and
    ["vid2500121"] in mp3 are distinct and yet get the same file name,
    because the MD5 digests of the two ids start with the same ten
    hexadecimal digits, [4fdf4c816f]. *)
Lemma derive_not_injective :
  vid_a <> vid_b /\
  output_filename vid_a = "4fdf4c816f.mp3" /\
  output_filename vid_b = "4fdf4c816f.mp3" /\
  ~ (forall r1 r2 : DownloadRequest,
       output_filename r1 = output_filename r2 -> r1 = r2).
Proof.
  assert (Hne : vid_a <> vid_b) by discriminate.
  assert (Ha : output_filename vid_a = "4fdf4c816f.mp3")
    by (vm_compute; reflexivity).
  assert (Hb : output_filename vid_b = "4fdf4c816f.mp3")
    by (vm_compute; reflexivity).
  repeat split; try assumption.
  intros Hinj. apply Hne, Hinj. now rewrite Ha, Hb.
Qed.

(** C7, amended: the file name is a function of the pair, and two pairs
    get the same file name exactly when their formats are equal and the
    MD5 digests of their ids agree on the first ten hexadecimal digits; so
    the format is always told apart, and the id up to the truncated
    hash. *)
Theorem derive_injective_up_to_hash (r1 r2 : DownloadRequest) :
  output_filename r1 = output_filename r2 <->
  substring 0 10 (MD5.hexdigest (MD5.encode (video_id r1)))
  = substring 0 10 (MD5.hexdigest (MD5.encode (video_id r2)))
  /\ format r1 = format r2.
Proof. apply output_filename_eq. Qed.

(** C6, as stated, fails: a request with the empty id is not rejected.
    On a server that holds no file it makes yt-dlp run, on the URL with
    nothing after [v=], and is answered "ready".  Nor is a request for
    the format ["wav"], which is handed to yt-dlp as the codec. *)
Lemma invalid_input_is_downloaded :
  video_id empty_mp3 = "" /\
  (let '(r, s) := download_music scripted_ydl main_file_route empty_mp3
                    (boot [Succeeds]) in
   r = inl {| status := "ready"; filename := "d41d8cd98f.mp3";
              download_url := "/download/file/d41d8cd98f.mp3" |} /\
   map snd (ydl_calls s) = [["https://www.youtube.com/watch?v="]] /\
   elements (files s) = ["downloads/d41d8cd98f.mp3"]) /\
  ~ In (format abc_wav) spec_allow_list /\
  (let '(r, s) := download_music scripted_ydl main_file_route abc_wav
                    (boot [Succeeds]) in
   r = inl {| status := "ready"; filename := "900150983c.wav";
              download_url := "/download/file/900150983c.wav" |} /\
   map (fun call => codec call.1) (ydl_calls s) = ["wav"]).
Proof.
  split; [reflexivity |]. split; [vm_compute; repeat split; reflexivity |].
  split; [| vm_compute; repeat split; reflexivity].
  simpl. intros [H | [H | []]]; discriminate.
Qed.

(** C6, amended: key derivation rejects no id that can be encoded, the
    empty one included, and there is no error for an invalid input.  For
    every such id and every format of the allow-list, the file name is the
    ten digits of the hash followed by [.mp3] or [.m4a], fourteen
    characters in all; when no file of that name exists yt-dlp is run
    once, on the URL of the id; and the request is answered "ready", or
    500 with the text of the exception that yt-dlp raised. *)
Theorem derive_total_and_download_attempted {World : Type}
    (ydl : ydl_opts -> list string -> World -> gset string ->
           option exn * World * gset string)
    (route : string) (request : DownloadRequest) (s : state World) :
  In (format request) spec_allow_list ->
  output_path request ∉ files s ->
  (output_filename request = file_hash (video_id request) +:+ ".mp3" \/
   output_filename request = file_hash (video_id request) +:+ ".m4a") /\
  String.length (output_filename request) = 14%nat /\
  ydl_calls (download_music ydl route request s).2
    = ydl_calls s ++ [(make_ydl_opts request, [video_url request])] /\
  ((download_music ydl route request s).1
     = inl {| status := "ready";
              filename := output_filename request;
              download_url := route +:+ output_filename request |} \/
   exists e,
     (ydl (make_ydl_opts request) [video_url request] (world s)
        (files s)).1.1 = Some e /\
     (download_music ydl route request s).1
       = inr {| status_code := 500; detail := str e |}).
Proof.
  intros Hformat Hnew.
  assert (Hname : output_filename request
                    = file_hash (video_id request) +:+ ".mp3" \/
                  output_filename request
                    = file_hash (video_id request) +:+ ".m4a").
  { unfold output_filename. simpl in Hformat.
    destruct Hformat as [<- | [<- | []]]; auto. }
  split; [exact Hname |]. split; [| split].
  - destruct Hname as [-> | ->];
      rewrite string_length_app, file_hash_length; reflexivity.
  - unfold download_music. rewrite decide_False by assumption.
    destruct (ydl _ _ _ _) as [[[e|] w] fs]; reflexivity.
  - unfold download_music. rewrite decide_False by assumption.
    destruct (ydl _ _ _ _) as [[[e|] w] fs]; simpl; [right | left].
    + exists e. split; reflexivity.
    + reflexivity.
Qed.

Lemma derive_total_and_download_attempted_witness :
  In (format empty_mp3) spec_allow_list /\
  (output_path empty_mp3 ∉ files (boot [Succeeds])) /\
  String.length (output_filename empty_mp3) = 14%nat /\
  ydl_calls (download_music scripted_ydl main_file_route empty_mp3
               (boot [Succeeds])).2
    = [(make_ydl_opts empty_mp3, [video_url empty_mp3])].
Proof.
  assert (Hin : In (format empty_mp3) spec_allow_list) by (simpl; auto).
  assert (Hnew : output_path empty_mp3 ∉ files (boot [Succeeds]))
    by (simpl; set_solver).
  split; [exact Hin |]. split; [exact Hnew |].
  pose proof (derive_total_and_download_attempted scripted_ydl
                main_file_route empty_mp3 (boot [Succeeds]) Hin Hnew)
    as (_ & Hlen & Hcalls & _).
  split; [exact Hlen | exact Hcalls].
Defined.

(** ** The cache *)

Lemma download_music_hit {World : Type}
    (ydl : ydl_opts -> list string -> World -> gset string ->
           option exn * World * gset string)
    (route : string) (request : DownloadRequest) (s : state World) :
  output_path request ∈ files s ->
  download_music ydl route request s = (inl (ready route request), s).
Proof. intros Hin. unfold download_music. now rewrite decide_True. Qed.

(** Whatever [download_music] replies on success is the same reply. *)
Lemma download_music_reply {World : Type}
    (ydl : ydl_opts -> list string -> World -> gset string ->
           option exn * World * gset string)
    (route : string) (request : DownloadRequest) (s s' : state World)
    (reply : download_reply) :
  download_music ydl route request s = (inl reply, s') ->
  reply = ready route request.
Proof.
  unfold download_music. destruct (decide _) as [Hin|Hnew].
  - now intros [= <- _].
  - destruct (ydl _ _ _ _) as [[[e|] w] fs]; [discriminate |].
    now intros [= <- _].
Qed.

(** C4: once a request was answered with success, the same request made
    in any state in which the file exists gets the very same reply,
    leaves the state as it was, and in particular does not run yt-dlp.
    That reply is "ready" with the derived file name, the hash of the id
    followed by a dot and the format, and with the URL that ends with
    that name; and the file that the name designates in the download
    directory is the one that exists. *)
Theorem cache_hit {World : Type}
    (ydl : ydl_opts -> list string -> World -> gset string ->
           option exn * World * gset string)
    (route : string) (request : DownloadRequest)
    (s0 s1 s : state World) (reply : download_reply) :
  download_music ydl route request s0 = (inl reply, s1) ->
  output_path request ∈ files s ->
  download_music ydl route request s = (inl reply, s) /\
  ydl_calls (download_music ydl route request s).2 = ydl_calls s /\
  status reply = "ready" /\
  filename reply = file_hash (video_id request) +:+ "." +:+ format request /\
  download_url reply = route +:+ filename reply /\
  path_join DOWNLOAD_DIR (filename reply) ∈ files s.
Proof.
  intros Hfirst Hin.
  apply download_music_reply in Hfirst as ->.
  rewrite download_music_hit by assumption.
  repeat split. exact Hin.
Qed.

Lemma cache_hit_witness :
  let first := download_music scripted_ydl main_file_route abc_mp3
                 (boot [Succeeds]) in
  first.1 = inl (ready main_file_route abc_mp3) /\
  (output_path abc_mp3 ∈ files first.2) /\
  download_music scripted_ydl main_file_route abc_mp3 first.2
    = (inl (ready main_file_route abc_mp3), first.2) /\
  filename (ready main_file_route abc_mp3)
    = file_hash "abc" +:+ "." +:+ "mp3".
Proof.
  set (s0 := boot [Succeeds]).
  set (s1 := (download_music scripted_ydl main_file_route abc_mp3 s0).2).
  assert (Hfirst : download_music scripted_ydl main_file_route abc_mp3 s0
                   = (inl (ready main_file_route abc_mp3), s1))
    by reflexivity.
  assert (Hin : output_path abc_mp3 ∈ files s1)
    by (vm_compute files; set_solver).
  cbv zeta. split; [reflexivity |]. split; [exact Hin |].
  pose proof (cache_hit scripted_ydl main_file_route abc_mp3 s0 s1 s1
                (ready main_file_route abc_mp3) Hfirst Hin)
    as (Hhit & _ & _ & Hname & _).
  split; [exact Hhit | exact Hname].
Defined.

(** ** Serving a file *)

Lemma get_file_unfold {World : Type} (name : string) (s : state World) :
  get_file name s
  = if decide (path_join DOWNLOAD_DIR name ∈ files s) then
      inl {| path := path_join DOWNLOAD_DIR name; media_type := "audio/mpeg";
             attachment := name |}
    else inr {| status_code := 404; detail := "File not found" |}.
Proof. reflexivity. Qed.

(** C10: whatever the name that is asked for, and so whatever the
    extension of the file, a file that is served is served as
    ["audio/mpeg"]; the only other answer of the endpoint is the 404 for a
    path that does not exist.  [get_file] is the same in [main.py] and in
    [server.py]. *)
Theorem get_file_media_type {World : Type} (name : string) (s : state World) :
  match get_file name s with
  | inl f => media_type f = "audio/mpeg" /\ path_join DOWNLOAD_DIR name ∈ files s
  | inr e => status_code e = 404 /\ path_join DOWNLOAD_DIR name ∉ files s
  end.
Proof. rewrite get_file_unfold. destruct (decide _); simpl; split; auto. Qed.

Example get_file_m4a :
  get_file "900150983c.m4a"
    (with_files {[ "downloads/900150983c.m4a" ]} (boot []))
  = inl {| path := "downloads/900150983c.m4a"; media_type := "audio/mpeg";
           attachment := "900150983c.m4a" |}.
Proof. vm_compute. reflexivity. Qed.

(** ** The cleanup task *)

Section cleanup.
Context {World : Type}.
Implicit Types (s : state World) (p q : string) (t : Z).

Lemma cleanup_file_files p q s :
  q ∈ files (cleanup_file p s) <->
  q ∈ files s /\ (q <> p \/ p ∈ locked s).
Proof.
  unfold cleanup_file. destruct (decide (p ∈ files s)) as [Hin|Hout].
  - destruct (decide (p ∈ locked s)) as [Hl|Hl]; simpl.
    + tauto.
    + rewrite elem_of_difference, elem_of_singleton. tauto.
  - split; [| tauto]. intros Hq. split; [assumption |].
    left. now intros ->.
Qed.

Lemma cleanup_file_rest p s :
  tasks (cleanup_file p s) = tasks s /\
  clock (cleanup_file p s) = clock s /\
  sending (cleanup_file p s) = sending s /\
  last_access (cleanup_file p s) = last_access s /\
  ydl_calls (cleanup_file p s) = ydl_calls s.
Proof.
  unfold cleanup_file. destruct (decide _); [| auto].
  destruct (decide _); simpl; auto.
Qed.

Lemma cleanup_file_outside p s :
  locked (cleanup_file p s) = locked s /\
  world (cleanup_file p s) = world s.
Proof.
  unfold cleanup_file. destruct (decide _); [| auto].
  destruct (decide _); simpl; auto.
Qed.

Lemma cleanup_all_outside (due : list (string * Z)) s :
  locked (cleanup_all due s) = locked s /\
  world (cleanup_all due s) = world s.
Proof.
  revert s. induction due as [|task due IH]; intros s; [simpl; auto |].
  unfold cleanup_all in *. simpl.
  destruct (IH (cleanup_file task.1 s)) as (-> & ->).
  apply cleanup_file_outside.
Qed.

Lemma cleanup_all_files due s p :
  p ∈ files (cleanup_all due s) <->
  p ∈ files s /\ (p ∈ locked s \/ p ∉ due.*1).
Proof.
  revert s. induction due as [|task due IH]; intros s; simpl.
  - set_solver.
  - unfold cleanup_all in *. simpl. rewrite IH, cleanup_file_files.
    destruct (cleanup_file_outside task.1 s) as [-> _].
    rewrite not_elem_of_cons. split.
    + intros [[Hin [Hne | Hl]] [Hl' | Hdue]]; split; auto.
      destruct (decide (p = task.1)) as [-> | Hne]; auto.
    + intros [Hin [Hl | [Hne Hdue]]]; split; auto.
      split; [assumption |].
      destruct (decide (p = task.1)) as [-> | Hne]; auto.
Qed.

Lemma cleanup_all_rest due s :
  tasks (cleanup_all due s) = tasks s /\
  clock (cleanup_all due s) = clock s /\
  sending (cleanup_all due s) = sending s /\
  last_access (cleanup_all due s) = last_access s /\
  ydl_calls (cleanup_all due s) = ydl_calls s.
Proof.
  revert s. induction due as [|task due IH]; intros s; [simpl; auto |].
  unfold cleanup_all in *. simpl.
  destruct (IH (cleanup_file task.1 s)) as (-> & -> & -> & -> & ->).
  apply cleanup_file_rest.
Qed.

(** What is left when the clock has reached [t]: the files for which no
    sleeping task was due or whose unlink is refused, and the tasks that
    are not due yet. *)
Lemma wake_files t s p :
  p ∈ files (wake t s) <->
  p ∈ files s /\
  (p ∈ locked s \/ ~ exists d, (p, d) ∈ tasks s /\ d <= t).
Proof.
  unfold wake.
  rewrite cleanup_all_files. simpl.
  split; intros [Hin Hno]; (split; [assumption |]);
    (destruct Hno as [Hl | Hno]; [now left | right]).
  - intros (d & Hd & Hle). apply Hno.
    apply (list_elem_of_fmap_2' fst _ (p, d) p); [| reflexivity].
    apply list_elem_of_filter. split; [| assumption].
    unfold is_due. now apply bool_decide_eq_true.
  - intros Hp. apply list_elem_of_fmap_1 in Hp as ([q d] & -> & Hq).
    apply list_elem_of_filter in Hq as [Hdue Hq].
    apply Hno. exists d. split; [assumption |].
    unfold is_due in Hdue. now apply bool_decide_eq_true in Hdue.
Qed.

Lemma wake_tasks t s task :
  task ∈ tasks (wake t s) <-> task ∈ tasks s /\ t < task.2.
Proof.
  unfold wake.
  destruct (cleanup_all_rest
    (filter (fun task => is_due t task = true) (tasks s))
    (with_clock t (with_tasks
       (filter (fun task => is_due t task = false) (tasks s)) s)))
    as (-> & _).
  simpl. rewrite list_elem_of_filter. unfold is_due.
  rewrite bool_decide_eq_false. split; intros [H1 H2]; split; auto; lia.
Qed.

Lemma wake_rest t s :
  clock (wake t s) = t /\
  sending (wake t s) = sending s /\
  last_access (wake t s) = last_access s /\
  ydl_calls (wake t s) = ydl_calls s.
Proof.
  unfold wake.
  destruct (cleanup_all_rest
    (filter (fun task => is_due t task = true) (tasks s))
    (with_clock t (with_tasks
       (filter (fun task => is_due t task = false) (tasks s)) s)))
    as (_ & -> & -> & -> & ->).
  simpl. auto.
Qed.

Lemma wake_outside t s :
  locked (wake t s) = locked s /\ world (wake t s) = world s.
Proof.
  unfold wake.
  destruct (cleanup_all_outside
    (filter (fun task => is_due t task = true) (tasks s))
    (with_clock t (with_tasks
       (filter (fun task => is_due t task = false) (tasks s)) s)))
    as (-> & ->).
  simpl. auto.
Qed.

End cleanup.

(** C2, as stated, fails: the file of a download is fetched one second
    before its cleanup task wakes up; when the task runs, the response is
    still being streamed (the busy count of the path is 1) and the file
    is deleted all the same. *)
Lemma busy_file_is_deleted :
  let p := "downloads/900150983c.mp3" in
  let s1 := (run scripted_ydl main_file_route
               [PostDownload abc_mp3; Elapse 3599; GetFile "900150983c.mp3"]
               (boot [Succeeds])).2 in
  let s2 := (step scripted_ydl main_file_route (Elapse 1) s1).2 in
  p ∈ files s1 /\ busy s1 p = 1%nat /\
  busy s2 p = 1%nat /\ p ∉ files s2.
Proof. cbv zeta. by_evaluation. Qed.

(** C2, amended: the cleanup consults no busy count.  When it runs it
    unlinks the file if the file exists, whoever is being sent it: the
    file is then gone, unless the operating system refuses the unlink,
    in which case the error is dropped and the file stays.  Nothing else
    changes: not the other files, the sleeping tasks, the clock, the
    world of yt-dlp, its log, the responses that are being sent or the
    access times.  The cleanup is without effect exactly when the file is
    absent or its unlink is refused; and a file whose unlink is not
    refused does not survive the moment at which a task for it wakes
    up. *)
Theorem cleanup_ignores_busy {World : Type} (p : string) (s : state World) :
  files (cleanup_file p s)
    = (if decide (p ∈ locked s) then files s else files s ∖ {[p]}) /\
  (tasks (cleanup_file p s) = tasks s /\
   clock (cleanup_file p s) = clock s /\
   world (cleanup_file p s) = world s /\
   locked (cleanup_file p s) = locked s /\
   ydl_calls (cleanup_file p s) = ydl_calls s /\
   sending (cleanup_file p s) = sending s /\
   last_access (cleanup_file p s) = last_access s) /\
  (forall q, busy (cleanup_file p s) q = busy s q) /\
  (cleanup_file p s = s <-> p ∉ files s \/ p ∈ locked s) /\
  (forall t d, (p, d) ∈ tasks s -> d <= t -> p ∉ locked s ->
               p ∉ files (wake t s)).
Proof.
  destruct (cleanup_file_rest p s) as (Ht & Hc & Hs & Ha & Hy).
  destruct (cleanup_file_outside p s) as (Hl & Hw).
  split; [| split; [| split; [| split]]].
  - unfold cleanup_file.
    destruct (decide (p ∈ files s)) as [Hin|Hout];
      destruct (decide (p ∈ locked s)); simpl; try reflexivity.
    set_solver.
  - auto 10.
  - intros q. unfold busy. now rewrite Hs.
  - unfold cleanup_file.
    destruct (decide (p ∈ files s)) as [Hin|Hout]; [| tauto].
    destruct (decide (p ∈ locked s)) as [Hlock|Hfree]; [tauto |].
    split; [| tauto]. intros Heq. apply (f_equal files) in Heq.
    simpl in Heq. set_solver.
  - intros t d Hd Hle Hfree Hin. apply wake_files in Hin as [_ [Hlock | Hno]].
    + contradiction.
    + apply Hno. eauto.
Qed.

(** C9, as stated, fails in its second half: [get_file] answers with a
    [FileResponse] on the plain path and marks nothing; while that
    response is being streamed, [cleanup_file] on the same path removes
    the file. *)
Lemma get_file_is_a_raw_read :
  let p := "downloads/900150983c.mp3" in
  let s := (download_music scripted_ydl main_file_route abc_mp3
              (boot [Succeeds])).2 in
  let s' := (step scripted_ydl main_file_route (GetFile "900150983c.mp3")
               s).2 in
  get_file "900150983c.mp3" s
    = inl {| path := p; media_type := "audio/mpeg";
             attachment := "900150983c.mp3" |} /\
  busy s' p = 1%nat /\ files s' = files s /\
  p ∉ files (cleanup_file p s').
Proof. cbv zeta. by_evaluation. Qed.

(** C9, amended: [get_file] answers 404 "File not found" exactly when
    the look-up of the path is answered and the path does not exist; when
    the look-up itself is refused the request fails with status 500; and
    otherwise the answer is a [FileResponse] on the path itself.  Serving
    leaves the directory and the sleeping tasks as they were, and does
    not keep a later cleanup from removing the file, which it does unless
    the unlink is refused. *)
Theorem get_file_not_found_iff {World : Type}
    (ydl : ydl_opts -> list string -> World -> gset string ->
           option exn * World * gset string)
    (route : string) (refused : string -> bool) (name : string)
    (s : state World) :
  (get_file_with refused name s
     = inr {| status_code := 404; detail := "File not found" |}
   <-> refused (path_join DOWNLOAD_DIR name) = false /\
       path_join DOWNLOAD_DIR name ∉ files s) /\
  (get_file_with refused name s
     = inr {| status_code := 500; detail := "Internal Server Error" |}
   <-> refused (path_join DOWNLOAD_DIR name) = true) /\
  (get_file_with refused name s
     = inl {| path := path_join DOWNLOAD_DIR name;
              media_type := "audio/mpeg"; attachment := name |}
   <-> refused (path_join DOWNLOAD_DIR name) = false /\
       path_join DOWNLOAD_DIR name ∈ files s) /\
  files (step ydl route (GetFile name) s).2 = files s /\
  tasks (step ydl route (GetFile name) s).2 = tasks s /\
  locked (step ydl route (GetFile name) s).2 = locked s /\
  (path_join DOWNLOAD_DIR name ∉ locked s ->
   path_join DOWNLOAD_DIR name
     ∉ files (cleanup_file (path_join DOWNLOAD_DIR name)
                (step ydl route (GetFile name) s).2)).
Proof.
  assert (Hstep : files (step ydl route (GetFile name) s).2 = files s /\
                  tasks (step ydl route (GetFile name) s).2 = tasks s /\
                  locked (step ydl route (GetFile name) s).2 = locked s)
    by (simpl; destruct (get_file name s); auto).
  destruct Hstep as (Hfiles & Htasks & Hlocked).
  split; [| split; [| split]].
  - unfold get_file_with.
    destruct (refused (path_join DOWNLOAD_DIR name)).
    + split; [discriminate | intros [? _]; discriminate].
    + destruct (decide _); split;
        first [discriminate | tauto | now intros [_ ?]].
  - unfold get_file_with.
    destruct (refused (path_join DOWNLOAD_DIR name)); [tauto |].
    destruct (decide _); split; discriminate.
  - unfold get_file_with.
    destruct (refused (path_join DOWNLOAD_DIR name)).
    + split; [discriminate | intros [? _]; discriminate].
    + destruct (decide _); split;
        first [discriminate | tauto | now intros [_ ?]].
  - split; [exact Hfiles |]. split; [exact Htasks |].
    split; [exact Hlocked |].
    intros Hfree Hin. apply cleanup_file_files in Hin as [_ [Hne | Hl]].
    + now apply Hne.
    + rewrite Hlocked in Hl. contradiction.
Qed.

(** ** The lifetime of a downloaded file *)

Section lifetime.
Context {World : Type}.
Variable ydl :
  ydl_opts -> list string -> World -> gset string ->
  option exn * World * gset string.
Variable route : string.
Implicit Types (s : state World) (p : string) (evs : list event).

(** A download that runs yt-dlp with success. *)
Lemma step_download_fresh request s w fs :
  output_path request ∉ files s ->
  ydl (make_ydl_opts request) [video_url request] (world s) (files s)
    = (None, w, fs) ->
  let s' := (step ydl route (PostDownload request) s).2 in
  (step ydl route (PostDownload request) s).1
    = Reply (ready route request) /\
  files s' = fs /\
  tasks s' = tasks s ++ [(output_path request, clock s + cleanup_delay)] /\
  clock s' = clock s /\
  ydl_calls s'
    = ydl_calls s ++ [(make_ydl_opts request, [video_url request])].
Proof.
  intros Hnew Hrun. simpl. unfold download_music.
  rewrite decide_False by assumption. rewrite Hrun. simpl.
  rewrite decide_False by assumption. simpl. auto.
Qed.

(** Fetching a file, the end of a stream and the passing of time never
    set the clock back. *)
Lemma step_clock_mono ev s :
  no_download [ev] -> clock s <= clock (step ydl route ev s).2.
Proof.
  intros Hev. destruct ev as [request|name|q|dt]; simpl.
  - now apply Forall_inv in Hev.
  - destruct (get_file name s); simpl; lia.
  - lia.
  - destruct (wake_rest (clock s + Z.of_N dt) s) as (-> & _). lia.
Qed.

Lemma run_cons ev evs s :
  run ydl route (ev :: evs) s
  = ((step ydl route ev s).1 :: (run ydl route evs (step ydl route ev s).2).1,
     (run ydl route evs (step ydl route ev s).2).2).
Proof.
  simpl. destruct (step ydl route ev s) as [r s']. simpl.
  now destruct (run ydl route evs s') as [rs s''].
Qed.

Lemma run_cons_state ev evs s :
  (run ydl route (ev :: evs) s).2
  = (run ydl route evs (step ydl route ev s).2).2.
Proof. now rewrite run_cons. Qed.

Lemma run_clock_mono evs s :
  no_download evs -> clock s <= clock (run ydl route evs s).2.
Proof.
  revert s. induction evs as [|ev evs IH]; intros s Hevs; [simpl; lia |].
  rewrite run_cons. simpl. apply Forall_cons in Hevs as [Hev Hevs].
  etransitivity; [| apply IH, Hevs].
  apply step_clock_mono. now constructor.
Qed.

(** No event changes what the operating system refuses to unlink. *)
Lemma step_locked ev s : locked (step ydl route ev s).2 = locked s.
Proof.
  destruct ev as [request|name|q|dt]; simpl.
  - unfold download_music. destruct (decide _) as [Hin|Hnew]; [reflexivity |].
    destruct (ydl _ _ _ _) as [[[e|] w] fs]; reflexivity.
  - destruct (get_file name s); reflexivity.
  - reflexivity.
  - apply wake_outside.
Qed.

Lemma run_locked evs s : locked (run ydl route evs s).2 = locked s.
Proof.
  revert s. induction evs as [|ev evs IH]; intros s; [reflexivity |].
  now rewrite run_cons_state, IH, step_locked.
Qed.

Lemma step_doomed p T ev s :
  no_download [ev] -> p ∉ locked s ->
  doomed p T s -> doomed p T (step ydl route ev s).2.
Proof.
  intros Hev Hfree Hs. destruct ev as [request|name|q|dt]; simpl.
  - now apply Forall_inv in Hev.
  - destruct (get_file name s); exact Hs.
  - exact Hs.
  - intros Hin. apply wake_files in Hin as [Hin [Hl | Hno]]; [contradiction |].
    destruct (Hs Hin) as (d & Hd & HdT & _).
    assert (Hlate : clock s + Z.of_N dt < d).
    { destruct (Z.le_gt_cases d (clock s + Z.of_N dt)); [| lia].
      exfalso. apply Hno. eauto. }
    exists d. split; [now apply wake_tasks |]. split; [assumption |].
    now destruct (wake_rest (clock s + Z.of_N dt) s) as (-> & _).
Qed.

Lemma run_doomed p T evs s :
  no_download evs -> p ∉ locked s ->
  doomed p T s -> doomed p T (run ydl route evs s).2.
Proof.
  revert s. induction evs as [|ev evs IH]; intros s Hevs Hfree Hs;
    [exact Hs |].
  rewrite run_cons. simpl. apply Forall_cons in Hevs as [Hev Hevs].
  apply IH; [assumption | now rewrite step_locked |].
  apply step_doomed; [now constructor | assumption | assumption].
Qed.

Lemma run_safe_until p T evs s :
  no_download evs -> safe_until p T s ->
  clock (run ydl route evs s).2 < T ->
  p ∈ files (run ydl route evs s).2.
Proof.
  revert s. induction evs as [|ev evs IH]; intros s Hevs Hs Hclock;
    [apply Hs |].
  rewrite run_cons in *. simpl in *.
  apply Forall_cons in Hevs as [Hev Hevs].
  apply IH; [assumption | | assumption].
  pose proof (run_clock_mono evs (step ydl route ev s).2 Hevs) as Hmono.
  destruct Hs as [Hin Htasks].
  destruct ev as [request|name|q|dt]; simpl in *.
  - contradiction.
  - destruct (get_file name s); split; assumption.
  - split; assumption.
  - destruct (wake_rest (clock s + Z.of_N dt) s) as (Hc & _).
    split.
    + apply wake_files. split; [assumption |]. right.
      intros (d & Hd & Hle). apply Htasks in Hd. lia.
    + intros d Hd. apply wake_tasks in Hd as [Hd _]. now apply Htasks.
Qed.

End lifetime.

(** C3, as stated, fails: a file downloaded at time 0 is read at time
    3000, so that its last access plus the delay is 6600; it is deleted
    when the clock reaches 3600 all the same. *)
Lemma read_does_not_postpone_cleanup :
  let p := "downloads/900150983c.mp3" in
  let s1 := (run scripted_ydl main_file_route
               [PostDownload abc_mp3; Elapse 3000; GetFile "900150983c.mp3";
                Sent p]
               (boot [Succeeds])).2 in
  let s2 := (step scripted_ydl main_file_route (Elapse 600) s1).2 in
  p ∈ files s1 /\ last_access s1 !! p = Some 3000 /\
  clock s2 = 3600 /\ last_access s2 !! p = Some 3000 /\
  ~ (3000 + cleanup_delay <= clock s2) /\
  p ∉ files s2.
Proof. cbv zeta. by_evaluation. Qed.

(** C3, amended: the deletion is timed from the download, not from the
    last access.  After a download that ran yt-dlp with success at time
    [t] and left the file under the derived path, with no older cleanup
    task asleep for that path and an unlink that the operating system
    does not refuse, and whatever files are fetched, streams end and time
    passes afterwards, the file exists exactly as long as the clock is
    below [t + 3600]: reading it does not postpone the deletion, and
    nothing deletes it earlier. *)
Theorem file_lives_for_the_delay {World : Type}
    (ydl : ydl_opts -> list string -> World -> gset string ->
           option exn * World * gset string)
    (route : string) (request : DownloadRequest) (s : state World)
    (w : World) (fs : gset string) (evs : list event) :
  output_path request ∉ files s ->
  (forall d, (output_path request, d) ∉ tasks s) ->
  output_path request ∉ locked s ->
  ydl (make_ydl_opts request) [video_url request] (world s) (files s)
    = (None, w, fs) ->
  output_path request ∈ fs ->
  no_download evs ->
  let s' := (run ydl route (PostDownload request :: evs) s).2 in
  output_path request ∈ files s' <-> clock s' < clock s + cleanup_delay.
Proof.
  intros Hnew Hfree Hunlink Hrun Hmade Hevs. cbv zeta.
  rewrite run_cons_state.
  destruct (step_download_fresh ydl route request s w fs Hnew Hrun)
    as (_ & Hfiles & Htasks & Hclock & _).
  pose proof (step_locked ydl route (PostDownload request) s) as Hlocked.
  set (s1 := (step ydl route (PostDownload request) s).2) in *.
  split.
  - intros Hin.
    assert (Hdoom : doomed (output_path request) (clock s + cleanup_delay) s1).
    { intros _. exists (clock s + cleanup_delay).
      rewrite Htasks, Hclock. split; [set_solver |].
      unfold cleanup_delay. lia. }
    apply (run_doomed ydl route _ _ evs) in Hdoom;
      [| assumption | now rewrite Hlocked].
    destruct (Hdoom Hin) as (d & _ & Hle & Hlt).
    exact (Z.lt_le_trans _ _ _ Hlt Hle).
  - apply run_safe_until; [assumption |]. split.
    + now rewrite Hfiles.
    + intros d. rewrite Htasks, elem_of_app, list_elem_of_singleton.
      intros [Hold | Heq]; [now apply Hfree in Hold |].
      injection Heq as ->. lia.
Qed.

Lemma file_lives_for_the_delay_witness :
  let p := output_path abc_mp3 in
  let evs := [Elapse 3000; GetFile "900150983c.mp3"; Sent p; Elapse 600] in
  let s' := (run scripted_ydl main_file_route (PostDownload abc_mp3 :: evs)
               (boot [Succeeds])).2 in
  no_download evs /\
  (p ∈ files s' <-> clock s' < 0 + cleanup_delay).
Proof.
  cbv zeta.
  assert (Hevs : no_download
            [Elapse 3000; GetFile "900150983c.mp3";
             Sent (output_path abc_mp3); Elapse 600])
    by (repeat constructor).
  split; [exact Hevs |].
  apply (file_lives_for_the_delay scripted_ydl main_file_route abc_mp3
           (boot [Succeeds]) [] {[ output_path abc_mp3 ]}).
  - simpl. set_solver.
  - intros d. simpl. set_solver.
  - simpl. set_solver.
  - vm_compute. reflexivity.
  - set_solver.
  - exact Hevs.
Defined.

(** ** Failures of yt-dlp *)

Lemma download_music_failure {World : Type}
    (ydl : ydl_opts -> list string -> World -> gset string ->
           option exn * World * gset string)
    (route : string) (request : DownloadRequest) (s : state World)
    (e : exn) (w : World) (fs : gset string) :
  output_path request ∉ files s ->
  ydl (make_ydl_opts request) [video_url request] (world s) (files s)
    = (Some e, w, fs) ->
  download_music ydl route request s
  = (inr {| status_code := 500; detail := str e |},
     after_ydl (make_ydl_opts request) [video_url request] w fs s).
Proof.
  intros Hnew Hrun. unfold download_music.
  rewrite decide_False by assumption. now rewrite Hrun.
Qed.

(** C8, as stated, fails: what the caller gets holds the text of the
    exception and the status 500, and no kind.  A time-out and an
    unsupported format that come with the same text are answered
    alike, so that no reading of the answer gives back the kind. *)
Lemma failure_kind_is_not_carried :
  ~ exists kind_of : HTTPException -> ExecutionError,
      forall e : exn, exists h : HTTPException,
        (download_music scripted_ydl main_file_route abc_mp3
           (boot [Fails e])).1 = inr h
        /\ kind_of h = cause e.
Proof.
  intros (kind_of & Hkind).
  assert (Hanswer : forall e,
    (download_music scripted_ydl main_file_route abc_mp3 (boot [Fails e])).1
    = inr {| status_code := 500; detail := str e |}).
  { intros e.
    rewrite (download_music_failure scripted_ydl main_file_route abc_mp3
               (boot [Fails e]) e [] ∅); [reflexivity | | reflexivity].
    simpl. set_solver. }
  destruct (Hkind {| cause := Timeout; str := "failed" |}) as (h1 & H1 & K1).
  destruct (Hkind {| cause := UnsupportedFormat; str := "failed" |})
    as (h2 & H2 & K2).
  rewrite Hanswer in H1, H2. simpl in *.
  injection H1 as <-. injection H2 as <-. congruence.
Qed.

(** C8, amended: when yt-dlp raises, the caller is answered with an
    [HTTPException] of status 500 whose detail is the text of the
    exception, word for word and unclassified; the failure is never
    turned into a success, and no cleanup task is started. *)
Theorem failure_forwarded_as_500 {World : Type}
    (ydl : ydl_opts -> list string -> World -> gset string ->
           option exn * World * gset string)
    (route : string) (request : DownloadRequest) (s : state World)
    (e : exn) (w : World) (fs : gset string) :
  output_path request ∉ files s ->
  ydl (make_ydl_opts request) [video_url request] (world s) (files s)
    = (Some e, w, fs) ->
  (download_music ydl route request s).1
    = inr {| status_code := 500; detail := str e |} /\
  (forall reply, (download_music ydl route request s).1 <> inl reply) /\
  tasks (download_music ydl route request s).2 = tasks s.
Proof.
  intros Hnew Hrun.
  rewrite (download_music_failure ydl route request s e w fs Hnew Hrun).
  simpl. repeat split. discriminate.
Qed.

Lemma failure_forwarded_as_500_witness :
  (output_path abc_mp3 ∉ files (boot [Fails unreachable])) /\
  (download_music scripted_ydl main_file_route abc_mp3
     (boot [Fails unreachable])).1
  = inr {| status_code := 500; detail := "network is unreachable" |}.
Proof.
  assert (Hnew : output_path abc_mp3 ∉ files (boot [Fails unreachable]))
    by (simpl; set_solver).
  split; [exact Hnew |].
  exact (proj1 (failure_forwarded_as_500 scripted_ydl main_file_route abc_mp3
                  (boot [Fails unreachable]) unreachable [] ∅ Hnew eq_refl)).
Defined.

(** ** Several requests for the same file *)

(** Requests that arrive together are served one after the other, each
    by one uninterrupted call of the handler. *)

Lemma run_hits {World : Type}
    (ydl : ydl_opts -> list string -> World -> gset string ->
           option exn * World * gset string)
    (route : string) (request : DownloadRequest) (s : state World) (k : nat) :
  output_path request ∈ files s ->
  run ydl route (repeat (PostDownload request) k) s
  = (repeat (Reply (ready route request)) k, s).
Proof.
  intros Hin. induction k as [|k IH]; [reflexivity |].
  assert (Hstep : step ydl route (PostDownload request) s
                  = (Reply (ready route request), s)).
  { simpl. rewrite download_music_hit by assumption.
    now rewrite decide_True. }
  simpl repeat. rewrite run_cons, Hstep. simpl. now rewrite IH.
Qed.

(** C1, as stated, fails: two requests for the same file, the first of
    which meets a failure of yt-dlp, make yt-dlp run twice, and the two
    callers get different answers. *)
Lemma no_single_flight :
  let '(rs, s) := run scripted_ydl main_file_route
                    [PostDownload abc_mp3; PostDownload abc_mp3]
                    (boot [Fails unreachable; Succeeds]) in
  length (ydl_calls s) = 2%nat /\
  rs = [ Error {| status_code := 500; detail := "network is unreachable" |};
         Reply {| status := "ready"; filename := "900150983c.mp3";
                  download_url := "/download/file/900150983c.mp3" |} ].
Proof. vm_compute. split; reflexivity. Qed.

(** C1, amended: N requests for the same file that are served one after
    the other, in a state in which the file does not exist, make yt-dlp
    run exactly once and are all answered with the same "ready" reply,
    provided that this one run succeeds and leaves the file under the
    derived path. *)
Theorem one_download_when_first_succeeds {World : Type}
    (ydl : ydl_opts -> list string -> World -> gset string ->
           option exn * World * gset string)
    (route : string) (request : DownloadRequest) (s : state World)
    (w : World) (fs : gset string) (N : nat) :
  (2 <= N)%nat ->
  output_path request ∉ files s ->
  ydl (make_ydl_opts request) [video_url request] (world s) (files s)
    = (None, w, fs) ->
  output_path request ∈ fs ->
  (run ydl route (repeat (PostDownload request) N) s).1
    = repeat (Reply (ready route request)) N /\
  ydl_calls (run ydl route (repeat (PostDownload request) N) s).2
    = ydl_calls s ++ [(make_ydl_opts request, [video_url request])].
Proof.
  intros HN Hnew Hrun Hmade.
  destruct N as [|k]; [lia |]. simpl repeat. rewrite run_cons.
  destruct (step_download_fresh ydl route request s w fs Hnew Hrun)
    as (Hreply & Hfiles & _ & _ & Hcalls).
  rewrite run_hits by (now rewrite Hfiles).
  cbn [fst snd]. rewrite Hreply. split; [reflexivity | exact Hcalls].
Qed.

Lemma one_download_when_first_succeeds_witness :
  (run scripted_ydl main_file_route (repeat (PostDownload abc_mp3) 3)
     (boot [Succeeds])).1
    = repeat (Reply (ready main_file_route abc_mp3)) 3 /\
  ydl_calls (run scripted_ydl main_file_route
               (repeat (PostDownload abc_mp3) 3) (boot [Succeeds])).2
    = [(make_ydl_opts abc_mp3, [video_url abc_mp3])].
Proof.
  apply (one_download_when_first_succeeds scripted_ydl main_file_route
           abc_mp3 (boot [Succeeds]) [] {[ output_path abc_mp3 ]} 3).
  - lia.
  - simpl. set_solver.
  - vm_compute. reflexivity.
  - set_solver.
Defined.

(** * Further properties of the handlers *)

(** ** A reply and the file it names *)

(** X1: a "ready" reply names the file by the last part of its URL, and
    fetching that name serves the derived path when the file exists and
    answers 404 when it does not. *)
Theorem ready_reply_names_the_file {World : Type}
    (ydl : ydl_opts -> list string -> World -> gset string ->
           option exn * World * gset string)
    (route : string) (request : DownloadRequest) (s s' : state World)
    (reply : download_reply) :
  download_music ydl route request s = (inl reply, s') ->
  download_url reply = route +:+ filename reply /\
  path_join DOWNLOAD_DIR (filename reply) = output_path request /\
  (output_path request ∈ files s' ->
   get_file (filename reply) s'
   = inl {| path := output_path request; media_type := "audio/mpeg";
            attachment := filename reply |}) /\
  (output_path request ∉ files s' ->
   get_file (filename reply) s'
   = inr {| status_code := 404; detail := "File not found" |}).
Proof.
  intros Hreply. apply download_music_reply in Hreply as ->. simpl.
  repeat split.
  - intros Hin. rewrite get_file_unfold. now rewrite decide_True.
  - intros Hout. rewrite get_file_unfold. now rewrite decide_False.
Qed.

Lemma ready_reply_names_the_file_witness :
  get_file "900150983c.mp3"
    (download_music scripted_ydl main_file_route abc_mp3 (boot [Succeeds])).2
  = inl {| path := "downloads/900150983c.mp3"; media_type := "audio/mpeg";
           attachment := "900150983c.mp3" |}.
Proof.
  set (s' := (download_music scripted_ydl main_file_route abc_mp3
                (boot [Succeeds])).2).
  assert (Hreply : download_music scripted_ydl main_file_route abc_mp3
                     (boot [Succeeds])
                   = (inl (ready main_file_route abc_mp3), s'))
    by reflexivity.
  assert (Hin : output_path abc_mp3 ∈ files s')
    by (vm_compute files; set_solver).
  exact (proj1 (proj2 (proj2 (ready_reply_names_the_file scripted_ydl
           main_file_route abc_mp3 (boot [Succeeds]) s'
           (ready main_file_route abc_mp3) Hreply))) Hin).
Defined.

Lemma download_music_miss_calls {World : Type}
    (ydl : ydl_opts -> list string -> World -> gset string ->
           option exn * World * gset string)
    (route : string) (request : DownloadRequest) (s : state World) :
  output_path request ∉ files s ->
  ydl_calls (download_music ydl route request s).2
  = ydl_calls s ++ [(make_ydl_opts request, [video_url request])].
Proof.
  intros Hnew. unfold download_music. rewrite decide_False by assumption.
  destruct (ydl _ _ _ _) as [[[e|] w] fs]; reflexivity.
Qed.

(** X2: "ready" does not mean that the file is there.  When yt-dlp
    returns without having left the derived path, the request is still
    answered "ready" and a cleanup task is still started, but the name in
    the reply is answered 404, and the same request made again runs
    yt-dlp again. *)
Theorem ready_without_file {World : Type}
    (ydl : ydl_opts -> list string -> World -> gset string ->
           option exn * World * gset string)
    (route : string) (request : DownloadRequest) (s : state World)
    (w : World) (fs : gset string) :
  output_path request ∉ files s ->
  ydl (make_ydl_opts request) [video_url request] (world s) (files s)
    = (None, w, fs) ->
  output_path request ∉ fs ->
  let s' := (download_music ydl route request s).2 in
  (download_music ydl route request s).1 = inl (ready route request) /\
  get_file (output_filename request) s'
    = inr {| status_code := 404; detail := "File not found" |} /\
  (output_path request, clock s + cleanup_delay) ∈ tasks s' /\
  ydl_calls (download_music ydl route request s').2
    = ydl_calls s' ++ [(make_ydl_opts request, [video_url request])].
Proof.
  intros Hnew Hrun Hmissing. cbv zeta.
  assert (Hdl : download_music ydl route request s
                = (inl (ready route request),
                   add_cleanup_task (output_path request) cleanup_delay
                     (after_ydl (make_ydl_opts request) [video_url request]
                        w fs s))).
  { unfold download_music. rewrite decide_False by assumption.
    now rewrite Hrun. }
  rewrite Hdl. cbn [fst snd]. split; [reflexivity |]. split; [| split].
  - rewrite get_file_unfold. fold (output_path request).
    now rewrite decide_False.
  - simpl. set_solver.
  - now apply download_music_miss_calls.
Qed.

Lemma ready_without_file_witness :
  let s' := (download_music ogg_ydl main_file_route abc_vorbis boot_unit).2 in
  (download_music ogg_ydl main_file_route abc_vorbis boot_unit).1
    = inl (ready main_file_route abc_vorbis) /\
  elements (files s') = ["downloads/900150983c.ogg"] /\
  get_file "900150983c.vorbis" s'
    = inr {| status_code := 404; detail := "File not found" |}.
Proof.
  assert (Hnew : output_path abc_vorbis ∉ files boot_unit)
    by (simpl; set_solver).
  assert (Hmissing : output_path abc_vorbis
                     ∉ (∅ ∪ {[ outtmpl (make_ydl_opts abc_vorbis) +:+ ".ogg" ]}
                        : gset string)).
  { apply (bool_decide_unpack _). vm_compute. exact I. }
  pose proof (ready_without_file ogg_ydl main_file_route abc_vorbis boot_unit
                tt _ Hnew eq_refl Hmissing) as (H1 & H2 & _).
  cbv zeta. split; [exact H1 |]. split; [vm_compute; reflexivity | exact H2].
Defined.

(** ** Files that nobody cleans up *)

Section orphans.
Context {World : Type}.
Variable ydl :
  ydl_opts -> list string -> World -> gset string ->
  option exn * World * gset string.
Variable route : string.

(** The file [p] exists and no sleeping task is for it. *)
Lemma step_keeps_orphan (p : string) (ev : event) (s : state World) :
  only_requests_for p [ev] ->
  p ∈ files s -> (forall d, (p, d) ∉ tasks s) ->
  p ∈ files (step ydl route ev s).2 /\
  (forall d, (p, d) ∉ tasks (step ydl route ev s).2).
Proof.
  intros Hev Hin Hfree. apply Forall_inv in Hev.
  destruct ev as [request|name|q|dt]; simpl.
  - subst p. rewrite download_music_hit by assumption.
    rewrite decide_True by assumption. auto.
  - destruct (get_file name s); auto.
  - auto.
  - split.
    + apply wake_files. split; [assumption |]. right.
      intros (d & Hd & _). now apply Hfree in Hd.
    + intros d Hd. apply wake_tasks in Hd as [Hd _]. now apply Hfree in Hd.
Qed.

Lemma run_keeps_orphan (p : string) (evs : list event) (s : state World) :
  only_requests_for p evs ->
  p ∈ files s -> (forall d, (p, d) ∉ tasks s) ->
  p ∈ files (run ydl route evs s).2 /\
  (forall d, (p, d) ∉ tasks (run ydl route evs s).2).
Proof.
  revert s. induction evs as [|ev evs IH]; intros s Hevs Hin Hfree;
    [simpl; auto |].
  rewrite run_cons_state. apply Forall_cons in Hevs as [Hev Hevs].
  destruct (step_keeps_orphan p ev s) as [Hin' Hfree'];
    [now constructor | assumption | assumption |].
  now apply IH.
Qed.

End orphans.

(** X3: a cache hit starts no cleanup.  A file that exists while no
    cleanup task is asleep for it (one left by an earlier run of the
    server, say) is never deleted: it is still there after any sequence
    of requests for it, of fetches, and of time passing. *)
Theorem file_without_task_is_kept {World : Type}
    (ydl : ydl_opts -> list string -> World -> gset string ->
           option exn * World * gset string)
    (route : string) (p : string) (evs : list event) (s : state World) :
  only_requests_for p evs ->
  p ∈ files s ->
  (forall d, (p, d) ∉ tasks s) ->
  p ∈ files (run ydl route evs s).2.
Proof. intros Hevs Hin Hfree. now apply run_keeps_orphan. Qed.

Lemma file_without_task_is_kept_witness :
  "downloads/900150983c.mp3"
  ∈ files (run scripted_ydl main_file_route
             [PostDownload abc_mp3; Elapse 4000; GetFile "900150983c.mp3";
              Elapse 100000; PostDownload abc_mp3]
             (with_files {[ "downloads/900150983c.mp3" ]} (boot []))).2.
Proof.
  apply file_without_task_is_kept.
  - repeat constructor.
  - simpl. set_solver.
  - intros d. simpl. set_solver.
Defined.

(** ** The shape of the hash *)

Lemma hex_digit_is_hex (x : Z) :
  0 <= x < 16 -> is_hex_digit (MD5.hex_digit x) = true.
Proof.
  intros Hx.
  assert (Hcases : x = 0 \/ x = 1 \/ x = 2 \/ x = 3 \/ x = 4 \/ x = 5 \/
                   x = 6 \/ x = 7 \/ x = 8 \/ x = 9 \/ x = 10 \/ x = 11 \/
                   x = 12 \/ x = 13 \/ x = 14 \/ x = 15) by lia.
  repeat (destruct Hcases as [-> | Hcases]; [reflexivity |]).
  subst x. reflexivity.
Qed.

Lemma all_hex_app (a b : string) : all_hex a -> all_hex b -> all_hex (a +:+ b).
Proof.
  unfold all_hex. induction a as [|c a IH]; simpl; [auto |].
  intros Ha Hb. apply Forall_cons in Ha as [Hc Ha]. constructor; auto.
Qed.

Lemma all_hex_substring (n : nat) (s : string) :
  all_hex s -> all_hex (substring 0 n s).
Proof.
  unfold all_hex. revert s. induction n as [|n IH]; intros s Hs.
  - destruct s; constructor.
  - destruct s as [|c s]; simpl; [constructor |].
    apply Forall_cons in Hs as [Hc Hs]. constructor; auto.
Qed.

Lemma le_bytes_range (n : nat) (x : Z) :
  Forall (fun b => 0 <= b < 256) (MD5.le_bytes n x).
Proof.
  revert x. induction n as [|n IH]; intros x; simpl; constructor; [| apply IH].
  change 255 with (Z.ones 8). rewrite Z.land_ones by lia.
  apply Z.mod_pos_bound. lia.
Qed.

Lemma hex_all_hex (bs : list Z) :
  Forall (fun b => 0 <= b < 256) bs -> all_hex (MD5.hex bs).
Proof.
  induction 1 as [|b bs Hb _ IH]; [constructor |].
  change (MD5.hex (b :: bs)) with (MD5.hex_byte b +:+ MD5.hex bs).
  apply all_hex_app; [| exact IH].
  unfold MD5.hex_byte, all_hex. simpl. repeat constructor.
  - apply hex_digit_is_hex. rewrite Z.shiftr_div_pow2 by lia.
    change (2 ^ 4) with 16. split.
    + apply Z.div_pos; lia.
    + apply Z.div_lt_upper_bound; lia.
  - apply hex_digit_is_hex. change 15 with (Z.ones 4).
    rewrite Z.land_ones by lia. apply Z.mod_pos_bound. lia.
Qed.

(** X4: whatever the video id, the stem of the file name is exactly ten
    characters, all of them in [0-9a-f]: nothing of the id itself (no
    slash, no dot) reaches the file name. *)
Theorem file_hash_is_ten_hex_digits (vid : string) :
  String.length (file_hash vid) = 10%nat /\
  Forall (fun c => is_hex_digit c = true)
    (list_ascii_of_string (file_hash vid)).
Proof.
  split; [apply file_hash_length |].
  apply all_hex_substring, hex_all_hex.
  unfold MD5.digest. repeat apply Forall_app_2; apply le_bytes_range.
Qed.

(** ** What serving and waiting never do *)

Section accounting.
Context {World : Type}.
Variable ydl :
  ydl_opts -> list string -> World -> gset string ->
  option exn * World * gset string.
Variable route : string.

Lemma wake_tasks_eq (t : Z) (s : state World) :
  tasks (wake t s) = filter (fun task => is_due t task = false) (tasks s).
Proof.
  unfold wake.
  now destruct (cleanup_all_rest
    (filter (fun task => is_due t task = true) (tasks s))
    (with_clock t (with_tasks
       (filter (fun task => is_due t task = false) (tasks s)) s)))
    as (-> & _).
Qed.

Lemma wake_world (t : Z) (s : state World) : world (wake t s) = world s.
Proof. apply wake_outside. Qed.

Lemma step_quiet (ev : event) (s : state World) :
  no_download [ev] ->
  files (step ydl route ev s).2 ⊆ files s /\
  ydl_calls (step ydl route ev s).2 = ydl_calls s /\
  world (step ydl route ev s).2 = world s /\
  (forall task, task ∈ tasks (step ydl route ev s).2 -> task ∈ tasks s).
Proof.
  intros Hev. apply Forall_inv in Hev.
  destruct ev as [request|name|q|dt]; simpl.
  - contradiction.
  - destruct (get_file name s); simpl; auto.
  - auto.
  - split; [| split; [| split]].
    + intros p Hp. now apply wake_files in Hp as [Hp _].
    + now destruct (wake_rest (clock s + Z.of_N dt) s) as (_ & _ & _ & ->).
    + apply wake_world.
    + intros task Htask. now apply wake_tasks in Htask as [Htask _].
Qed.

Lemma step_accounting (ev : event) (s : state World) :
  (length (tasks (step ydl route ev s).2) + length (ydl_calls s)
   <= length (tasks s) + length (ydl_calls (step ydl route ev s).2))%nat /\
  exists calls, ydl_calls (step ydl route ev s).2 = ydl_calls s ++ calls.
Proof.
  destruct ev as [request|name|q|dt]; simpl.
  - unfold download_music. destruct (decide _) as [Hin|Hnew].
    + simpl. split; [lia |]. exists []. now rewrite app_nil_r.
    + destruct (ydl _ _ _ _) as [[[e|] w] fs]; simpl.
      * rewrite length_app. simpl. split; [lia | eauto].
      * rewrite !length_app. simpl. split; [lia | eauto].
  - destruct (get_file name s); simpl; (split; [lia |]);
      exists []; now rewrite app_nil_r.
  - split; [lia |]. exists []. now rewrite app_nil_r.
  - rewrite wake_tasks_eq.
    destruct (wake_rest (clock s + Z.of_N dt) s) as (_ & _ & _ & ->).
    split; [| exists []; now rewrite app_nil_r].
    pose proof (length_filter (fun task => is_due (clock s + Z.of_N dt) task = false)
                  (tasks s)). lia.
Qed.

End accounting.

(** X5: fetching files, ending streams and waiting never run yt-dlp and
    never create a file or a cleanup task: over such a run the set of
    files can only shrink, and the log of yt-dlp invocations and the
    world outside stay as they were. *)
Theorem serving_never_downloads {World : Type}
    (ydl : ydl_opts -> list string -> World -> gset string ->
           option exn * World * gset string)
    (route : string) (evs : list event) (s : state World) :
  no_download evs ->
  files (run ydl route evs s).2 ⊆ files s /\
  ydl_calls (run ydl route evs s).2 = ydl_calls s /\
  world (run ydl route evs s).2 = world s /\
  (forall task, task ∈ tasks (run ydl route evs s).2 -> task ∈ tasks s).
Proof.
  revert s. induction evs as [|ev evs IH]; intros s Hevs; [simpl; auto |].
  rewrite run_cons_state. apply Forall_cons in Hevs as [Hev Hevs].
  destruct (step_quiet ydl route ev s) as (Hf & Hc & Hw & Ht);
    [now constructor |].
  destruct (IH (step ydl route ev s).2 Hevs) as (Hf' & Hc' & Hw' & Ht').
  split; [set_solver |]. split; [congruence |]. split; [congruence | auto].
Qed.

Lemma serving_never_downloads_witness :
  let s := (download_music scripted_ydl main_file_route abc_mp3
              (boot [Succeeds; Succeeds])).2 in
  let s' := (run scripted_ydl main_file_route
               [GetFile "900150983c.mp3"; Elapse 5000; GetFile "zzz"] s).2 in
  files s' ⊆ files s /\ ydl_calls s' = ydl_calls s /\ world s' = [Succeeds].
Proof.
  cbv zeta.
  destruct (serving_never_downloads scripted_ydl main_file_route
              [GetFile "900150983c.mp3"; Elapse 5000; GetFile "zzz"]
              (download_music scripted_ydl main_file_route abc_mp3
                 (boot [Succeeds; Succeeds])).2)
    as (Hf & Hc & Hw & _); [repeat constructor |].
  split; [exact Hf |]. split; [exact Hc | exact Hw].
Defined.

Lemma download_music_error_keeps_tasks {World : Type}
    (ydl : ydl_opts -> list string -> World -> gset string ->
           option exn * World * gset string)
    (route : string) (request : DownloadRequest) (s s' : state World)
    (h : HTTPException) :
  download_music ydl route request s = (inr h, s') -> tasks s' = tasks s.
Proof.
  unfold download_music. destruct (decide _); [discriminate |].
  destruct (ydl _ _ _ _) as [[[e|] w] fs]; [| discriminate].
  now intros [= _ <-].
Qed.

(** X6: over any run whatever, the log of yt-dlp invocations only grows at
    its end, and the number of sleeping cleanup tasks grows by at most the
    number of invocations made.  Call by call: a download that is
    answered with an error starts no task, a cache hit starts no task and
    runs nothing, and a fetch starts no task. *)
Theorem tasks_bounded_by_downloads {World : Type}
    (ydl : ydl_opts -> list string -> World -> gset string ->
           option exn * World * gset string)
    (route : string) (evs : list event) (s : state World) :
  (length (tasks (run ydl route evs s).2) + length (ydl_calls s)
   <= length (tasks s) + length (ydl_calls (run ydl route evs s).2))%nat /\
  (exists calls, ydl_calls (run ydl route evs s).2 = ydl_calls s ++ calls) /\
  (forall request h s',
     download_music ydl route request s = (inr h, s') ->
     tasks s' = tasks s) /\
  (forall request,
     output_path request ∈ files s ->
     tasks (download_music ydl route request s).2 = tasks s /\
     ydl_calls (download_music ydl route request s).2 = ydl_calls s) /\
  (forall name, tasks (step ydl route (GetFile name) s).2 = tasks s).
Proof.
  split; [| split; [| split; [| split]]].
  - revert s. induction evs as [|ev evs IH]; intros s; [simpl; lia |].
    rewrite run_cons_state.
    destruct (step_accounting ydl route ev s) as (Hn & _).
    specialize (IH (step ydl route ev s).2). lia.
  - revert s. induction evs as [|ev evs IH]; intros s.
    + exists []. simpl. now rewrite app_nil_r.
    + rewrite run_cons_state.
      destruct (step_accounting ydl route ev s) as (_ & c1 & Hc1).
      destruct (IH (step ydl route ev s).2) as (c2 & Hc2).
      exists (c1 ++ c2). now rewrite Hc2, Hc1, app_assoc.
  - intros request h s'. apply download_music_error_keeps_tasks.
  - intros request Hin. now rewrite download_music_hit.
  - intros name. simpl. now destruct (get_file name s).
Qed.

(** ** Two videos, one file *)

(** X7: the cache is keyed by the truncated hash, not by the video.  If
    the ids of two requests for the same format have the same hash and
    the file of the first exists, the second is answered at once with the
    reply of the first, and yt-dlp is not run for it. *)
Theorem colliding_request_is_a_hit {World : Type}
    (ydl : ydl_opts -> list string -> World -> gset string ->
           option exn * World * gset string)
    (route : string) (r1 r2 : DownloadRequest) (s : state World) :
  file_hash (video_id r1) = file_hash (video_id r2) ->
  format r1 = format r2 ->
  output_path r1 ∈ files s ->
  download_music ydl route r2 s = (inl (ready route r1), s).
Proof.
  intros Hh Hf Hin.
  assert (Hname : output_filename r2 = output_filename r1)
    by (apply output_filename_eq; auto).
  rewrite download_music_hit.
  - unfold ready. now rewrite Hname.
  - unfold output_path in *. now rewrite Hname.
Qed.

Lemma colliding_request_is_a_hit_witness :
  vid_a <> vid_b /\
  let s := (download_music scripted_ydl main_file_route vid_a
              (boot [Succeeds])).2 in
  download_music scripted_ydl main_file_route vid_b s
  = (inl (ready main_file_route vid_a), s).
Proof.
  split; [discriminate |]. cbv zeta.
  apply colliding_request_is_a_hit.
  - vm_compute. reflexivity.
  - reflexivity.
  - apply (bool_decide_unpack _). vm_compute. exact I.
Defined.

(** * The handlers that do not download *)

(** ** Characters *)

Lemma py_len_app (a b : string) :
  py_len (a +:+ b) = (py_len a + py_len b)%nat.
Proof.
  induction a as [|c a IH]; simpl; [reflexivity |].
  destruct (is_continuation c); simpl; now rewrite IH.
Qed.

Lemma py_len_slice_to (n : nat) (s : string) :
  py_len (slice_to n s) = Nat.min n (py_len s).
Proof.
  revert n. induction s as [|c s IH]; intros n; simpl; [lia |].
  destruct (is_continuation c) eqn:Hc; simpl.
  - now rewrite Hc, IH.
  - destruct n as [|n]; simpl; [reflexivity |]. now rewrite Hc, IH.
Qed.

Lemma slice_to_prefix (n : nat) (s : string) :
  exists rest, s = slice_to n s +:+ rest.
Proof.
  revert n. induction s as [|c s IH]; intros n; simpl; [now exists "" |].
  destruct (is_continuation c).
  - destruct (IH n) as [rest Hrest]. exists rest.
    change (String c s = String c (slice_to n s +:+ rest)). now f_equal.
  - destruct n as [|n]; [now exists (String c s) |].
    destruct (IH n) as [rest Hrest]. exists rest.
    change (String c s = String c (slice_to n s +:+ rest)). now f_equal.
Qed.

Lemma slice_to_all (n : nat) (s : string) :
  (py_len s <= n)%nat -> slice_to n s = s.
Proof.
  revert n. induction s as [|c s IH]; intros n Hn; simpl in *; [reflexivity |].
  destruct (is_continuation c).
  - now rewrite IH.
  - destruct n as [|n]; [lia |]. rewrite IH; [reflexivity | lia].
Qed.

(** ** [search_music] *)

Section search.
Context {World : Type}.
Variable extract_info :
  extract_opts -> string -> World -> (option info_dict + exn) * World.
Variable rt : runtime.

Lemma collect_videos_ok (es : list (option (gmap string value)))
    (videos : list VideoInfo) :
  collect_videos rt es = inl videos <->
  Forall2 (fun entry video => video_of_entry rt entry = inl video)
    (truthy_entries es) videos.
Proof.
  revert videos. induction es as [|e es IH]; intros videos.
  - simpl. split.
    + intros [= <-]. constructor.
    + intros H. inversion H. reflexivity.
  - unfold truthy_entries in *. simpl.
    destruct e as [entry|]; [| apply IH].
    destruct (truthy (Some entry)); [| apply IH].
    simpl. destruct (video_of_entry rt entry) as [video|err] eqn:Hvideo.
    + destruct (collect_videos rt es) as [vs|err].
      * split.
        -- intros [= <-]. constructor; [exact Hvideo | now apply IH].
        -- intros H. inversion H as [|? v' ? vs' Hv Hvs]; subst.
           rewrite Hvideo in Hv. injection Hv as <-.
           apply IH in Hvs. now injection Hvs as <-.
      * split; [discriminate |].
        intros H. inversion H as [|? v' ? vs' Hv Hvs]; subst.
        apply IH in Hvs. discriminate.
    + split; [discriminate |].
      intros H. inversion H as [|? v' ? vs' Hv Hvs]; subst.
      rewrite Hvideo in Hv. discriminate.
Qed.

Lemma collect_videos_error (es : list (option (gmap string value)))
    (err : string) :
  collect_videos rt es = inr err ->
  exists entry, entry ∈ truthy_entries es /\ video_of_entry rt entry = inr err.
Proof.
  induction es as [|e es IH]; [discriminate |].
  unfold truthy_entries in *. simpl.
  destruct e as [entry|]; [| exact IH].
  destruct (truthy (Some entry)); [| exact IH].
  simpl. destruct (video_of_entry rt entry) as [video|err'] eqn:Hv.
  - destruct (collect_videos rt es) as [vs|err'']; [discriminate |].
    intros [= <-]. destruct (IH eq_refl) as (d & Hd & Herr).
    exists d. split; [now right | assumption].
  - intros [= <-]. exists entry. split; [now left | assumption].
Qed.

Lemma truthy_entries_length (es : list (option (gmap string value))) :
  (length (truthy_entries es) <= length es)%nat.
Proof.
  induction es as [|e es IH]; [simpl; lia |].
  unfold truthy_entries in *. cbn [omap list_omap length].
  destruct (if truthy e then e else None); cbn [length]; lia.
Qed.

Lemma truthy_entries_elem (es : list (option (gmap string value)))
    (entry : gmap string value) :
  entry ∈ truthy_entries es <-> Some entry ∈ es /\ entry <> ∅.
Proof.
  unfold truthy_entries. rewrite list_elem_of_omap. split.
  - intros (e & He & Ht). destruct e as [d|]; simpl in Ht; [| discriminate].
    destruct (bool_decide (d = ∅)) eqn:Hd; simpl in Ht; [discriminate |].
    injection Ht as ->. split; [assumption |].
    now apply bool_decide_eq_false in Hd.
  - intros [He Hne]. exists (Some entry). split; [assumption |].
    simpl. now rewrite bool_decide_eq_false_2.
Qed.

Lemma search_music_entries (request : SearchRequest) (w w' : World)
    (r : info_dict) (es : list (option (gmap string value))) :
  extract_info search_opts (search_query request) w = (inl (Some r), w') ->
  entries r = Some es ->
  search_music extract_info rt request w
  = (match collect_videos rt es with
     | inl videos => inl videos
     | inr err => inr (internal_error err)
     end, w').
Proof.
  intros Hx Hes. unfold search_music. rewrite Hx. simpl. rewrite Hes.
  now destruct (collect_videos rt es).
Qed.

End search.

Lemma truthy_entries_none (es : list (option (gmap string value))) :
  Forall (fun e => truthy e = false) es -> truthy_entries es = [].
Proof.
  induction 1 as [|e es He _ IH]; [reflexivity |].
  unfold truthy_entries in *. cbn [omap list_omap]. now rewrite He.
Qed.

(** X8: a search without results is not an error.  When [extract_info]
    returns [None], a dictionary without the key ['entries'], or entries
    that are all [None] or empty, the answer is the empty list. *)
Theorem search_without_results_is_empty {World : Type}
    (extract_info :
       extract_opts -> string -> World -> (option info_dict + exn) * World)
    (rt : runtime) (request : SearchRequest) (w w' : World)
    (result : option info_dict) :
  extract_info search_opts (search_query request) w = (inl result, w') ->
  (forall r es, result = Some r -> entries r = Some es ->
                Forall (fun e => truthy e = false) es) ->
  search_music extract_info rt request w = (inl [], w').
Proof.
  intros Hx Hempty. unfold search_music. rewrite Hx.
  destruct result as [r|]; [| reflexivity].
  destruct (falsy (Some r)); [reflexivity |].
  destruct (entries r) as [es|] eqn:Hes; [| reflexivity].
  assert (Hnone : collect_videos rt es = inl []).
  { apply collect_videos_ok.
    rewrite (truthy_entries_none es) by (now apply (Hempty r)).
    constructor. }
  now rewrite Hnone.
Qed.

Lemma search_without_results_is_empty_witness :
  search_music scripted_extract strict ten_songs (found [None; Some ∅])
  = (inl [], found [None; Some ∅]).
Proof.
  apply (search_without_results_is_empty scripted_extract strict ten_songs
           (found [None; Some ∅]) (found [None; Some ∅])
           (Some {| fields := {[ "title" := VStr "results" ]};
                    entries := Some [None; Some ∅] |})).
  - reflexivity.
  - intros r es [= <-] [= <-]. repeat constructor.
Defined.

(** X9: a successful search answers with one video for each entry that is
    neither [None] nor empty, in the order of the entries, each built from
    its own entry; so there are never more videos than entries. *)
Theorem search_one_video_per_entry {World : Type}
    (extract_info :
       extract_opts -> string -> World -> (option info_dict + exn) * World)
    (rt : runtime) (request : SearchRequest) (w w' : World)
    (r : info_dict) (es : list (option (gmap string value)))
    (videos : list VideoInfo) :
  extract_info search_opts (search_query request) w = (inl (Some r), w') ->
  entries r = Some es ->
  search_music extract_info rt request w = (inl videos, w') ->
  Forall2 (fun entry video => video_of_entry rt entry = inl video)
    (truthy_entries es) videos /\
  (length videos <= length es)%nat.
Proof.
  intros Hx Hes Hvideos.
  rewrite (search_music_entries extract_info rt request w w' r es Hx Hes)
    in Hvideos.
  destruct (collect_videos rt es) as [vs|err] eqn:Hc; [| discriminate].
  injection Hvideos as ->. apply collect_videos_ok in Hc.
  split; [exact Hc |].
  rewrite <- (Forall2_length _ _ _ Hc). apply truthy_entries_length.
Qed.

Lemma search_one_video_per_entry_witness :
  let es := [Some entry_a; None; Some ∅; Some entry_url_only] in
  let videos :=
    [ {| id_ := "a"; title := "Song"; duration := 215; thumbnail := "";
         channel := "Unknown"; views := None |};
      {| id_ := ""; title := "Unknown"; duration := 0; thumbnail := "";
         channel := "Unknown"; views := None |} ] in
  search_music scripted_extract strict ten_songs (found es)
    = (inl videos, found es) /\
  Forall2 (fun entry video => video_of_entry strict entry = inl video)
    (truthy_entries es) videos.
Proof.
  cbv zeta.
  assert (Hrun : search_music scripted_extract strict ten_songs
            (found [Some entry_a; None; Some ∅; Some entry_url_only])
          = (inl [ {| id_ := "a"; title := "Song"; duration := 215;
                      thumbnail := ""; channel := "Unknown"; views := None |};
                   {| id_ := ""; title := "Unknown"; duration := 0;
                      thumbnail := ""; channel := "Unknown";
                      views := None |} ],
             found [Some entry_a; None; Some ∅; Some entry_url_only]))
    by (vm_compute; reflexivity).
  split; [exact Hrun |].
  exact (proj1 (search_one_video_per_entry scripted_extract strict ten_songs
                  _ _
                  {| fields := {[ "title" := VStr "results" ]};
                     entries := Some [Some entry_a; None; Some ∅;
                                      Some entry_url_only] |}
                  [Some entry_a; None; Some ∅; Some entry_url_only]
                  _ eq_refl eq_refl Hrun)).
Defined.

Lemma new_VideoInfo_ok (rt : runtime) (i t d th c v : value)
    (video : VideoInfo) :
  new_VideoInfo rt i t d th c v = inl video ->
  str_field rt i = Some (id_ video) /\
  str_field rt t = Some (title video) /\
  int_field rt d = Some (duration video) /\
  str_field rt th = Some (thumbnail video) /\
  str_field rt c = Some (channel video) /\
  optional_int_field rt v = Some (views video).
Proof.
  unfold new_VideoInfo.
  destruct (str_field rt i), (str_field rt t), (int_field rt d),
    (str_field rt th), (str_field rt c), (optional_int_field rt v);
    try discriminate.
  intros [= <-]. simpl. auto 6.
Qed.

(** X10: the defaults of [search_music] are for keys that are absent.
    With a pydantic that reads a string as itself and an integer as
    itself, a video built from an entry has the id [""], the title and
    the channel ["Unknown"], the duration 0, the thumbnail [""] and no
    view count for whichever of these keys its entry lacks. *)
Theorem absent_keys_get_defaults (rt : runtime)
    (entry : gmap string value) (video : VideoInfo) :
  (forall s, str_field rt (VStr s) = Some s) ->
  (forall z, int_field rt (VInt z) = Some z) ->
  video_of_entry rt entry = inl video ->
  (entry !! "id" = None -> id_ video = "") /\
  (entry !! "title" = None -> title video = "Unknown") /\
  (entry !! "duration" = None -> duration video = 0) /\
  (entry !! "thumbnail" = None -> thumbnail video = "") /\
  (entry !! "channel" = None -> channel video = "Unknown") /\
  (entry !! "view_count" = None -> views video = None).
Proof.
  intros Hstr Hint Hvideo. unfold video_of_entry in Hvideo.
  apply new_VideoInfo_ok in Hvideo as (Hi & Ht & Hd & Hth & Hc & Hv).
  unfold dict_get in *.
  repeat split; intros Habsent; rewrite Habsent in *; simpl in *.
  - rewrite Hstr in Hi. now injection Hi.
  - rewrite Hstr in Ht. now injection Ht.
  - rewrite Hint in Hd. now injection Hd.
  - rewrite Hstr in Hth. now injection Hth.
  - rewrite Hstr in Hc. now injection Hc.
  - now injection Hv.
Qed.

Lemma absent_keys_get_defaults_witness :
  let video := {| id_ := ""; title := "Unknown"; duration := 0;
                  thumbnail := ""; channel := "Unknown"; views := None |} in
  video_of_entry strict entry_url_only = inl video /\
  entry_url_only !! "title" = None /\
  title video = "Unknown".
Proof.
  cbv zeta.
  assert (Hvideo : video_of_entry strict entry_url_only
            = inl {| id_ := ""; title := "Unknown"; duration := 0;
                     thumbnail := ""; channel := "Unknown"; views := None |})
    by (vm_compute; reflexivity).
  assert (Habsent : entry_url_only !! "title" = None)
    by (vm_compute; reflexivity).
  split; [exact Hvideo |]. split; [exact Habsent |].
  exact (proj1 (proj2 (absent_keys_get_defaults strict entry_url_only _
                         (fun s => eq_refl) (fun z => eq_refl) Hvideo))
           Habsent).
Defined.

Lemma Forall2_elem_l {A B} (P : A -> B -> Prop) (l : list A) (k : list B)
    (x : A) :
  Forall2 P l k -> x ∈ l -> exists y, P x y.
Proof.
  induction 1 as [|a b l k Hab _ IH]; intros Hx.
  - now apply elem_of_nil in Hx.
  - apply elem_of_cons in Hx as [-> | Hx]; eauto.
Qed.

(** X11: a key that is bound to [None] gets no default.  With a pydantic
    that rejects [None] for an [int], one entry whose duration is [None]
    makes the whole search fail with status 500, whatever the other
    entries are. *)
Theorem none_duration_fails_the_search {World : Type}
    (extract_info :
       extract_opts -> string -> World -> (option info_dict + exn) * World)
    (rt : runtime) (request : SearchRequest) (w w' : World)
    (r : info_dict) (es : list (option (gmap string value)))
    (entry : gmap string value) :
  int_field rt VNone = None ->
  extract_info search_opts (search_query request) w = (inl (Some r), w') ->
  entries r = Some es ->
  Some entry ∈ es ->
  entry !! "duration" = Some VNone ->
  exists text,
    search_music extract_info rt request w = (inr (internal_error text), w').
Proof.
  intros Hnone Hx Hes Hentry Hduration.
  rewrite (search_music_entries extract_info rt request w w' r es Hx Hes).
  destruct (collect_videos rt es) as [videos|err] eqn:Hc; [| eauto].
  exfalso. apply collect_videos_ok in Hc.
  assert (Hin : entry ∈ truthy_entries es).
  { apply truthy_entries_elem. split; [assumption |].
    intros ->. now rewrite lookup_empty in Hduration. }
  destruct (Forall2_elem_l _ _ _ _ Hc Hin) as [video Hvideo].
  unfold video_of_entry in Hvideo.
  apply new_VideoInfo_ok in Hvideo as (_ & _ & Hd & _).
  unfold dict_get in Hd. rewrite Hduration in Hd. simpl in Hd. congruence.
Qed.

Lemma none_duration_fails_the_search_witness :
  search_music scripted_extract strict ten_songs
    (found [Some entry_a; Some entry_live])
  = (inr (internal_error "validation error"),
     found [Some entry_a; Some entry_live]).
Proof.
  destruct (none_duration_fails_the_search scripted_extract strict ten_songs
              (found [Some entry_a; Some entry_live])
              (found [Some entry_a; Some entry_live])
              {| fields := {[ "title" := VStr "results" ]};
                 entries := Some [Some entry_a; Some entry_live] |}
              [Some entry_a; Some entry_live] entry_live)
    as [text Htext].
  - reflexivity.
  - reflexivity.
  - reflexivity.
  - set_solver.
  - vm_compute. reflexivity.
  - vm_compute. reflexivity.
Defined.

(** X12: [search_music] fails for two reasons only, and always with status
    500: [extract_info] raised, and the detail is the text of its
    exception; or pydantic rejected one of the entries that are neither
    [None] nor empty, and the detail is the text of that error. *)
Theorem search_fails_for_two_reasons {World : Type}
    (extract_info :
       extract_opts -> string -> World -> (option info_dict + exn) * World)
    (rt : runtime) (request : SearchRequest) (w w' : World)
    (h : HTTPException) :
  search_music extract_info rt request w = (inr h, w') ->
  status_code h = 500 /\
  ((exists e, extract_info search_opts (search_query request) w
              = (inr e, w') /\ detail h = str e) \/
   (exists r es entry,
      extract_info search_opts (search_query request) w
        = (inl (Some r), w') /\
      entries r = Some es /\ Some entry ∈ es /\ entry <> ∅ /\
      video_of_entry rt entry = inr (detail h))).
Proof.
  unfold search_music.
  destruct (extract_info search_opts (search_query request) w)
    as [[result|e] w0] eqn:Hx.
  - destruct (falsy result); [discriminate |].
    destruct result as [r|]; [| discriminate].
    destruct (entries r) as [es|] eqn:Hes; [| discriminate].
    destruct (collect_videos rt es) as [videos|err] eqn:Hc; [discriminate |].
    intros [= <- <-]. split; [reflexivity |]. right.
    apply collect_videos_error in Hc as (entry & Hin & Herr).
    apply truthy_entries_elem in Hin as [Hin Hne].
    exists r, es, entry. auto.
  - intros [= <- <-]. split; [reflexivity |]. left. eauto.
Qed.

Lemma search_fails_for_two_reasons_witness :
  search_music scripted_extract strict ten_songs (inr unreachable)
  = (inr (internal_error "network is unreachable"), inr unreachable) /\
  status_code (internal_error "network is unreachable") = 500.
Proof.
  assert (Hrun : search_music scripted_extract strict ten_songs
                   (inr unreachable)
                 = (inr (internal_error "network is unreachable"),
                    inr unreachable)) by reflexivity.
  split; [exact Hrun |].
  exact (proj1 (search_fails_for_two_reasons scripted_extract strict
                  ten_songs _ _ _ Hrun)).
Defined.

(** ** [get_video_info] *)

Lemma get_video_info_text {World : Type}
    (extract_info :
       extract_opts -> string -> World -> (option info_dict + exn) * World)
    (rt : runtime) (vid : string) (w w' : World) (r : info_dict)
    (d : string) :
  extract_info info_opts (watch_url vid) w = (inl (Some r), w') ->
  dict_get (fields r) "description" (VStr "") = VStr d ->
  exists reply,
    get_video_info extract_info rt vid w = (inl reply, w') /\
    reply !! "description" = Some (VStr (slice_to 200 d +:+ "...")) /\
    reply !! "id" = Some (dict_get (fields r) "id" VNone) /\
    reply !! "views" = Some (dict_get (fields r) "view_count" VNone).
Proof.
  intros Hx Hd. unfold get_video_info. rewrite Hx, Hd. simpl.
  eexists. split; [reflexivity |].
  repeat split; simplify_map_eq; reflexivity.
Qed.

(** X13: the description that [get_video_info] returns is the first 200
    characters of the description of yt-dlp followed by three dots, dots
    that are added to a short description too: it has at most 203
    characters, and it is ["..."] when yt-dlp gives no description.  The
    view count is returned under the key ["views"]. *)
Theorem description_is_cut_to_200 {World : Type}
    (extract_info :
       extract_opts -> string -> World -> (option info_dict + exn) * World)
    (rt : runtime) (vid : string) (w w' : World) (r : info_dict)
    (d : string) :
  extract_info info_opts (watch_url vid) w = (inl (Some r), w') ->
  (fields r !! "description" = None /\ d = "") \/
  fields r !! "description" = Some (VStr d) ->
  exists reply,
    get_video_info extract_info rt vid w = (inl reply, w') /\
    reply !! "description" = Some (VStr (slice_to 200 d +:+ "...")) /\
    py_len (slice_to 200 d +:+ "...") = (Nat.min 200 (py_len d) + 3)%nat /\
    (exists rest, d = slice_to 200 d +:+ rest) /\
    ((py_len d <= 200)%nat -> slice_to 200 d = d) /\
    reply !! "views" = Some (dict_get (fields r) "view_count" VNone).
Proof.
  intros Hx Hd.
  assert (Hget : dict_get (fields r) "description" (VStr "") = VStr d).
  { unfold dict_get. destruct Hd as [[-> ->] | ->]; reflexivity. }
  destruct (get_video_info_text extract_info rt vid w w' r d Hx Hget)
    as (reply & Hreply & Hdesc & _ & Hviews).
  exists reply. split; [assumption |]. split; [assumption |].
  split; [| split; [| split]].
  - rewrite py_len_app, py_len_slice_to. reflexivity.
  - apply slice_to_prefix.
  - apply slice_to_all.
  - assumption.
Qed.

Lemma description_is_cut_to_200_witness :
  exists reply,
    get_video_info scripted_extract strict "abc" info_without_description
      = (inl reply, info_without_description) /\
    reply !! "description" = Some (VStr "...") /\
    reply !! "views" = Some (VInt 7).
Proof.
  destruct (description_is_cut_to_200 scripted_extract strict "abc"
              info_without_description info_without_description
              {| fields := {[ "id" := VStr "abc"; "view_count" := VInt 7 ]};
                 entries := None |} "" eq_refl)
    as (reply & Hreply & Hdesc & _ & _ & _ & Hviews).
  - left. split; [vm_compute; reflexivity | reflexivity].
  - exists reply. split; [exact Hreply |]. split; [exact Hdesc |].
    rewrite Hviews. vm_compute. reflexivity.
Defined.

(** X14: [get_video_info] needs the description to be a string or to be
    absent.  When yt-dlp binds the key to anything else, [None] included,
    the request fails with status 500, although every other key may be
    [None] or absent without harm. *)
Theorem description_must_be_text {World : Type}
    (extract_info :
       extract_opts -> string -> World -> (option info_dict + exn) * World)
    (rt : runtime) (vid : string) (w w' : World) (r : info_dict)
    (v : value) :
  extract_info info_opts (watch_url vid) w = (inl (Some r), w') ->
  fields r !! "description" = Some v ->
  (forall d, v <> VStr d) ->
  exists text,
    get_video_info extract_info rt vid w = (inr (internal_error text), w').
Proof.
  intros Hx Hv Hnot. unfold get_video_info, dict_get. rewrite Hx, Hv. simpl.
  destruct v as [|d|z|tag]; simpl; eauto.
  now destruct (Hnot d).
Qed.

Lemma description_must_be_text_witness :
  exists text,
    get_video_info scripted_extract strict "abc" info_with_none_description
    = (inr (internal_error text), info_with_none_description).
Proof.
  apply (description_must_be_text scripted_extract strict "abc"
           info_with_none_description info_with_none_description
           {| fields := {[ "id" := VStr "abc"; "description" := VNone ]};
              entries := None |} VNone eq_refl).
  - vm_compute. reflexivity.
  - discriminate.
Defined.

(** ** [serve_webapp] *)

Lemma prefix_nil_r (a : string) : String.prefix a "" = true -> a = "".
Proof. destruct a; [reflexivity | discriminate]. Qed.

Lemma prefix_cons (c d : ascii) (a s : string) :
  String.prefix (String c a) (String d s) = true <->
  c = d /\ String.prefix a s = true.
Proof.
  simpl. destruct (ascii_dec c d) as [-> | Hne]; split.
  - auto.
  - now intros [_ H].
  - discriminate.
  - now intros [H _].
Qed.

Lemma prefix_app_same (a s : string) : String.prefix a (a +:+ s) = true.
Proof.
  induction a as [|c a IH]; [now destruct s |].
  change (String.prefix (String c a) (String c (a +:+ s)) = true).
  now apply prefix_cons.
Qed.

Lemma prefix_split (a s : string) :
  String.prefix a s = true -> exists t, s = a +:+ t.
Proof.
  revert s. induction a as [|c a IH]; intros s Hp; [now exists s |].
  destruct s as [|d s]; [discriminate |].
  apply prefix_cons in Hp as [-> Hp]. destruct (IH s Hp) as [t ->].
  now exists t.
Qed.

(** A prefix of a concatenation is a prefix of its left part, or goes
    beyond it. *)
Lemma prefix_app_cases (u a x : string) :
  String.prefix u (a +:+ x) = true ->
  String.prefix u a = true \/ String.prefix a u = true.
Proof.
  revert a. induction u as [|c u IH]; intros a Hp.
  - left. now destruct a.
  - destruct a as [|d a]; [now right |].
    change (String.prefix (String c u) (String d (a +:+ x)) = true) in Hp.
    apply prefix_cons in Hp as [-> Hp].
    destruct (IH a Hp) as [H | H]; [left | right]; now apply prefix_cons.
Qed.

Lemma string_drop_nil (n : nat) : string_drop n "" = "".
Proof. now destruct n. Qed.

Lemma string_drop_app (a s : string) :
  string_drop (String.length a) (a +:+ s) = s.
Proof. induction a as [|c a IH]; [reflexivity | exact IH]. Qed.

Lemma string_drop_app_l (i : nat) (a s : string) :
  (i <= String.length a)%nat ->
  string_drop i (a +:+ s) = string_drop i a +:+ s.
Proof.
  revert a. induction i as [|i IH]; intros a Hi; [reflexivity |].
  destruct a as [|c a]; simpl in *; [lia |]. apply IH. lia.
Qed.

Lemma string_drop_app_r (i : nat) (a s : string) :
  (String.length a <= i)%nat ->
  string_drop i (a +:+ s) = string_drop (i - String.length a) s.
Proof.
  revert i. induction a as [|c a IH]; intros i Hi; simpl.
  - now rewrite Nat.sub_0_r.
  - destruct i as [|i]; simpl in *; [lia |]. apply IH. lia.
Qed.

Lemma string_drop_step (k : nat) (s : string) (c : ascii) (t : string) :
  string_drop k s = String c t -> string_drop (S k) s = t.
Proof.
  revert s. induction k as [|k IH]; intros s Hs; simpl in *.
  - now subst s.
  - destruct s as [|d s]; [discriminate |]. now apply IH.
Qed.

Lemma string_drop_length (k : nat) (s : string) :
  String.length (string_drop k s) = (String.length s - k)%nat.
Proof.
  revert s. induction k as [|k IH]; intros s; simpl; [lia |].
  destruct s as [|c s]; simpl; [reflexivity | apply IH].
Qed.

(** The equations of [str_replace]. *)
Lemma replace_from_skip (a old new s : string) :
  replace_from (String.length a) old new (a +:+ s) = str_replace old new s.
Proof. induction a as [|c a IH]; [reflexivity | exact IH]. Qed.

Lemma str_replace_copy (old new : string) (c : ascii) (s : string) :
  String.prefix old (String c s) = false ->
  str_replace old new (String c s) = String c (str_replace old new s).
Proof. intros Hp. unfold str_replace. cbn [replace_from]. now rewrite Hp. Qed.

Lemma str_replace_match (old new s : string) :
  old <> "" ->
  str_replace old new (old +:+ s) = new +:+ str_replace old new s.
Proof.
  intros Hold. destruct old as [|c o]; [contradiction |].
  unfold str_replace at 1.
  change (String c o +:+ s) with (String c (o +:+ s)).
  cbn [replace_from].
  change (String c (o +:+ s)) with (String c o +:+ s).
  rewrite prefix_app_same. f_equal.
  cbn [String.length]. rewrite Nat.sub_succ, Nat.sub_0_r.
  apply replace_from_skip.
Qed.

(** A non-empty string either does not begin with [old], or is [old]
    followed by a shorter string. *)
Lemma begins_or_not (old : string) (c : ascii) (s : string) :
  old <> "" ->
  String.prefix old (String c s) = false \/
  exists t, String c s = old +:+ t /\ (String.length t <= String.length s)%nat.
Proof.
  intros Hold. destruct (String.prefix old (String c s)) eqn:Hp; [| now left].
  right. destruct (prefix_split _ _ Hp) as [t Ht]. exists t.
  split; [assumption |].
  apply (f_equal String.length) in Ht. rewrite string_length_app in Ht.
  destruct old; [contradiction |]. simpl in Ht. lia.
Qed.

Lemma string_drop_all (k : nat) (s : string) :
  (String.length s <= k)%nat -> string_drop k s = "".
Proof.
  intros Hk. pose proof (string_drop_length k s) as Hlen.
  destruct (string_drop k s); [reflexivity | simpl in Hlen; lia].
Qed.

Section replace_leaves_nothing.
Variables old new : string.
Hypothesis Hold : old <> "".
Hypothesis Hno : no_overlap old new = true.

Lemma old_end_meets_no_new (k : nat) :
  (1 <= k < String.length old)%nat ->
  compatible (string_drop k old) new = false.
Proof.
  intros Hk. unfold no_overlap in Hno.
  apply andb_true_iff in Hno as [HA _].
  rewrite forallb_forall in HA.
  apply negb_true_iff, HA, in_seq. lia.
Qed.

Lemma new_end_meets_no_old (i : nat) :
  (i < String.length new)%nat ->
  compatible (string_drop i new) old = false.
Proof.
  intros Hi. unfold no_overlap in Hno.
  apply andb_true_iff in Hno as [_ HB].
  rewrite forallb_forall in HB.
  apply negb_true_iff, HB, in_seq. lia.
Qed.

(** An end of [old] that begins the result began the text. *)
Lemma old_end_through_replace (n : nat) :
  forall s, (String.length s <= n)%nat ->
  forall k, (1 <= k)%nat ->
  String.prefix (string_drop k old) (str_replace old new s) = true ->
  String.prefix (string_drop k old) s = true.
Proof.
  induction n as [|n IH]; intros s Hn k Hk Hp.
  - destruct s; [| simpl in Hn; lia].
    apply prefix_nil_r in Hp. now rewrite Hp.
  - destruct s as [|c s]; [apply prefix_nil_r in Hp; now rewrite Hp |].
    simpl in Hn.
    destruct (begins_or_not old c s Hold) as [Hcopy | (t & Ht & Hlen)].
    + rewrite str_replace_copy in Hp by assumption.
      destruct (string_drop k old) as [|c' u] eqn:Hu; [reflexivity |].
      apply prefix_cons in Hp as [-> Hp]. apply prefix_cons.
      split; [reflexivity |].
      apply string_drop_step in Hu. rewrite <- Hu in *.
      apply IH; [lia | lia | assumption].
    + rewrite Ht in *. rewrite str_replace_match in Hp by assumption.
      destruct (Nat.lt_ge_cases k (String.length old)) as [Hlt | Hge].
      * apply prefix_app_cases in Hp.
        pose proof (old_end_meets_no_new k (conj Hk Hlt)) as Hnone.
        unfold compatible in Hnone. apply orb_false_iff in Hnone as [H1 H2].
        destruct Hp; congruence.
      * rewrite string_drop_all by assumption. now destruct (old +:+ t).
Qed.

Lemma no_old_after_replace (n : nat) :
  forall s, (String.length s <= n)%nat ->
  forall i, String.prefix old (string_drop i (str_replace old new s)) = false.
Proof.
  assert (Hempty : forall i, String.prefix old (string_drop i "") = false).
  { intros i. rewrite string_drop_nil. clear -Hold.
    destruct old; [contradiction | reflexivity]. }
  induction n as [|n IH]; intros s Hn i.
  - destruct s; [apply Hempty | simpl in Hn; lia].
  - destruct s as [|c s]; [apply Hempty |]. simpl in Hn.
    destruct (begins_or_not old c s Hold) as [Hcopy | (t & Ht & Hlen)].
    + rewrite str_replace_copy by assumption.
      destruct i as [|i]; [| simpl; apply IH; lia].
      simpl string_drop.
      destruct (String.prefix old (String c (str_replace old new s)))
        eqn:Hp; [| reflexivity].
      exfalso.
      assert (Hshape : exists c0 o0, old = String c0 o0 /\
                                     o0 = string_drop 1 old).
      { clear -Hold. destruct old as [|c0 o0]; [contradiction |]. eauto. }
      destruct Hshape as (c0 & o0 & Hshape & Ho).
      rewrite Hshape in Hp at 1. apply prefix_cons in Hp as [-> Hp].
      rewrite Ho in Hp.
      apply (old_end_through_replace n) in Hp; [| lia | lia].
      rewrite <- Ho in Hp.
      assert (Hbegin : String.prefix (String c o0) (String c s) = true)
        by (now apply prefix_cons).
      rewrite <- Hshape in Hbegin. congruence.
    + rewrite Ht. rewrite str_replace_match by assumption.
      destruct (Nat.lt_ge_cases i (String.length new)) as [Hlt | Hge].
      * rewrite string_drop_app_l by lia.
        destruct (String.prefix old
                    (string_drop i new +:+ str_replace old new t)) eqn:Hp;
          [| reflexivity].
        exfalso. apply prefix_app_cases in Hp.
        pose proof (new_end_meets_no_old i Hlt) as Hnone.
        unfold compatible in Hnone. apply orb_false_iff in Hnone as [H1 H2].
        destruct Hp; congruence.
      * rewrite string_drop_app_r by lia. apply IH. lia.
Qed.

End replace_leaves_nothing.

Lemma short_text_has_no_line (text : string) (i : nat) :
  (String.length text < String.length localhost_line)%nat ->
  ~ occurs_at localhost_line text i.
Proof.
  unfold occurs_at. intros Hshort Hp. apply prefix_split in Hp as [t Ht].
  apply (f_equal String.length) in Ht.
  rewrite string_drop_length, string_length_app in Ht. lia.
Qed.

(** X15: whatever the bytes of [index.html], the page that is sent never
    contains the line that points the page to [localhost:8000]: wherever
    the file has it, and however often, it is replaced, and no
    replacement makes a new one.  The status is 200 exactly when the
    bytes are UTF-8; for other bytes the reading raises and the answer is
    the 500 of the server. *)
Theorem served_page_never_points_to_localhost (bytes : string) (i : nat) :
  (html_status (serve_index (Some bytes)) = 200 <->
   utf8_valid bytes = true) /\
  (utf8_valid bytes = false ->
   serve_index (Some bytes)
   = {| content := "Internal Server Error"; html_status := 500 |}) /\
  ~ occurs_at localhost_line (content (serve_index (Some bytes))) i.
Proof.
  unfold serve_index, read_text.
  destruct (utf8_valid bytes); simpl.
  - split; [tauto |]. split; [discriminate |]. unfold occurs_at.
    rewrite (no_old_after_replace localhost_line origin_line)
      with (n := String.length (universal_newlines bytes));
      [discriminate | discriminate | | lia].
    vm_compute. reflexivity.
  - split; [split; discriminate |]. split; [reflexivity |].
    apply short_text_has_no_line. simpl. lia.
Qed.

Lemma str_replace_absent (old new s : string) :
  (forall i, ~ occurs_at old s i) -> str_replace old new s = s.
Proof.
  unfold occurs_at. induction s as [|c s IH]; intros Habsent; [reflexivity |].
  rewrite str_replace_copy.
  - f_equal. apply IH. intros i. exact (Habsent (S i)).
  - destruct (String.prefix old (String c s)) eqn:Hp; [| reflexivity].
    exfalso. apply (Habsent O). exact Hp.
Qed.

Lemma occurs_at_length (old s : string) (i : nat) :
  occurs_at old s i -> old <> "" ->
  (i + String.length old <= String.length s)%nat.
Proof.
  unfold occurs_at. intros Hp Hold. apply prefix_split in Hp as [t Ht].
  apply (f_equal String.length) in Ht.
  rewrite string_drop_length, string_length_app in Ht.
  assert (Hpos : (0 < String.length old)%nat)
    by (destruct old; [contradiction | simpl; lia]).
  lia.
Qed.

Lemma universal_newlines_id (text : string) :
  Forall (fun c => c <> CR) (list_ascii_of_string text) ->
  universal_newlines text = text.
Proof.
  induction text as [|c text IH]; intros Hcr; [reflexivity |].
  simpl in Hcr. apply Forall_cons in Hcr as [Hc Hcr].
  cbn [universal_newlines].
  destruct (Ascii.eqb c CR) eqn:Heq.
  - apply Ascii.eqb_eq in Heq. contradiction.
  - f_equal. now apply IH.
Qed.

(** X16: a file that is UTF-8, has no carriage return and does not
    contain the line is sent byte for byte, with status 200. *)
Theorem page_without_the_line_is_sent_as_is (bytes : string) :
  utf8_valid bytes = true ->
  Forall (fun c => c <> CR) (list_ascii_of_string bytes) ->
  (forall i, ~ occurs_at localhost_line bytes i) ->
  serve_index (Some bytes) = {| content := bytes; html_status := 200 |}.
Proof.
  intros Hvalid Hcr Habsent. unfold serve_index, read_text.
  rewrite Hvalid, universal_newlines_id by assumption.
  unfold serve_webapp. now rewrite str_replace_absent.
Qed.

Lemma page_without_the_line_is_sent_as_is_witness :
  serve_index (Some "<html></html>")
  = {| content := "<html></html>"; html_status := 200 |}.
Proof.
  apply page_without_the_line_is_sent_as_is.
  - vm_compute. reflexivity.
  - simpl. repeat constructor; discriminate.
  - intros i. apply short_text_has_no_line. simpl. lia.
Defined.

(** A file with the line endings of Windows is sent with line feeds. *)
Example page_with_carriage_returns :
  serve_index (Some (String "a" (String CR (String LF "b"))))
  = {| content := String "a" (String LF "b"); html_status := 200 |}.
Proof. vm_compute. reflexivity. Qed.




(** ** [handle_text] *)

(** X18: the label of the button that [handle_text] sends holds at most
    the first 30 characters of the message, between a fixed beginning of
    10 characters and a fixed end of 4 that always has the three dots: it
    is never longer than 44 characters.  The URL of the button is
    [WEBAPP_URL], then [?q=], then the whole message as it was typed. *)
Theorem button_label_is_bounded (webapp_url query : string) :
  button_text (handle_text webapp_url query)
    = "🔍 Искать '" +:+ slice_to 30 query +:+ "...'" /\
  py_len (button_text (handle_text webapp_url query))
    = (Nat.min 30 (py_len query) + 14)%nat /\
  (py_len (button_text (handle_text webapp_url query)) <= 44)%nat /\
  ((py_len query <= 30)%nat -> slice_to 30 query = query) /\
  (exists rest, query = slice_to 30 query +:+ rest) /\
  button_url (handle_text webapp_url query)
    = webapp_url +:+ "?q=" +:+ query.
Proof.
  assert (Hlen : py_len (button_text (handle_text webapp_url query))
                 = (Nat.min 30 (py_len query) + 14)%nat).
  { unfold handle_text, button_text.
    rewrite !py_len_app, py_len_slice_to.
    change (py_len "🔍 Искать '") with 10%nat.
    change (py_len "...'") with 4%nat. lia. }
  split; [reflexivity |]. split; [exact Hlen |]. split; [lia |].
  split; [apply slice_to_all |]. split; [apply slice_to_prefix |].
  reflexivity.
Qed.

(** ** An id without encoding *)

Lemma unencodable_id_is_answered_500 {World : Type}
    (ydl : ydl_opts -> list string -> World -> gset string ->
           option exn * World * gset string)
    (route encode_error fmt : string) (s : state World) :
  download_music_any ydl route encode_error None fmt s
  = (inr {| status_code := 500; detail := encode_error |}, s) /\
  forall vid,
    download_music_any ydl route encode_error (Some vid) fmt s
    = download_music ydl route {| video_id := vid; format := fmt |} s.
Proof. split; reflexivity. Qed.
